(** * tilelive-cache: the codec and the cache orchestrator of [index.js]

    A shallow embedding of [errcode], [encode], [decode], [setEx],
    [isFresh] and the function returned by [cachingGet], followed by the
    properties of the wire format, of the freshness test, of the TTL
    computation and of the hit / miss / revalidation control flow.

    Modelling conventions.
    - A Buffer is a [list byte]; a JavaScript string is a [string].  Text
      is taken to be ASCII, one character per byte, so that
      [new Buffer(s)] and [buf.toString()] are the two conversions of the
      standard library between [string] and [list byte].
    - JavaScript numbers are restricted to integers ([Z]).
    - A plain object is an association list in insertion order
      ([object]); objects that the code mutates live in a heap and are
      passed by reference ([loc]).
    - [undefined] is [None] in [jsval := option json].
    - What the JavaScript runtime provides ([JSON.stringify],
      [JSON.parse], [Date], the conversions behind [==]) is the
      interface [Runtime]; the module [Node] gives an executable
      instance of it, on which the program is run on concrete inputs. *)

From Stdlib Require Import ZArith String Ascii Strings.Byte List Lia Bool DecimalString.
From stdpp Require Import base option list strings gmap.
Import ListNotations.
Local Open Scope string_scope.
Local Open Scope list_scope.
Local Open Scope Z_scope.
Local Set Warnings "-register-all".

(** ** JavaScript values *)

Inductive json :=
| JNull
| JBool (b : bool)
| JNum (n : Z)
| JStr (s : string)
| JArr (l : list json)
| JObj (o : list (string * json)).

(** A plain object: own enumerable properties in insertion order. *)
Abbreviation object := (list (string * json)).

(** A value or [undefined]. *)
Definition jsval := option json.

Definition bytes := list byte.

(** [ToBoolean]. *)
Definition truthy (v : jsval) : bool :=
  match v with
  | None => false
  | Some JNull => false
  | Some (JBool b) => b
  | Some (JNum n) => negb (n =? 0)
  | Some (JStr s) => negb (String.eqb s "")
  | Some (JArr _) => true
  | Some (JObj _) => true
  end.

(** [o[k]] *)
Fixpoint get_prop (k : string) (o : object) : jsval :=
  match o with
  | [] => None
  | (k', v) :: o' => if String.eqb k k' then Some v else get_prop k o'
  end.

(** [o[k] = v]: an existing property keeps its place, a new one goes last. *)
Fixpoint set_prop (k : string) (v : json) (o : object) : object :=
  match o with
  | [] => [(k, v)]
  | (k', v') :: o' =>
      if String.eqb k k' then (k', v) :: o' else (k', v') :: set_prop k v o'
  end.

(** [delete o[k]] *)
Fixpoint delete_prop (k : string) (o : object) : object :=
  match o with
  | [] => []
  | (k', v') :: o' =>
      if String.eqb k k' then delete_prop k o' else (k', v') :: delete_prop k o'
  end.

(** ** Text and buffers *)

(** [new Buffer(s)] and [buf.toString()]. *)
Definition Buffer_from (s : string) : bytes := list_byte_of_string s.
Definition Buffer_toString (b : bytes) : string := string_of_list_byte b.

(** White space removed by [String.prototype.trim], in the ASCII range. *)
Definition is_ws (c : ascii) : bool :=
  let n := nat_of_ascii c in
  ((9 <=? n) && (n <=? 13))%nat || (n =? 32)%nat.

Fixpoint trim_start (s : string) : string :=
  match s with
  | EmptyString => EmptyString
  | String c s' => if is_ws c then trim_start s' else s
  end.

Fixpoint trim_end (s : string) : string :=
  match s with
  | EmptyString => EmptyString
  | String c s' =>
      match trim_end s' with
      | EmptyString => if is_ws c then EmptyString else String c EmptyString
      | t => String c t
      end
  end.

Definition trim (s : string) : string := trim_end (trim_start s).

(** ** Errors and exceptions *)

(** An error object handed around by callbacks. *)
Record error := mkError {
  statusCode : option Z;
  tlcache : bool;
  message : string
}.

(** What a [throw] of this program or of the runtime carries. *)
Inductive exn :=
| InvalidCacheValue        (* Error('Invalid cache value') *)
| ContentLengthMismatch    (* Error('Content length does not match') *)
| HeadersExceed            (* Error('Invalid cache value - headers exceed 1024 bytes: ...') *)
| TypeError                (* raised by the runtime *)
| SyntaxError.             (* raised by JSON.parse outside a try *)

Inductive outcome (A : Type) :=
| Ok (a : A)
| Throw (e : exn).
Arguments Ok {A} a.
Arguments Throw {A} e.

(** ** The runtime *)

Class Runtime := {
  (** [JSON.stringify(v)] for a JSON value *)
  JSON_stringify : json -> string;
  (** [JSON.parse(s)]; [None] is a SyntaxError *)
  JSON_parse : string -> option json;
  (** [Number(new Date(v))]; [None] is NaN *)
  Date_time : json -> option Z;
  (** [(new Date(t)).toUTCString()] *)
  toUTCString : Z -> string;
  (** [x == y] where a conversion ([ToNumber], [ToPrimitive]) is involved *)
  abstract_eq : json -> json -> bool
}.

(** [x == y].  Numbers compare as numbers, [null] and [undefined] are
    equal to each other and to nothing else; the rest is the runtime's. *)
Definition loose_eq `{Runtime} (x y : jsval) : bool :=
  match x, y with
  | None, None | None, Some JNull | Some JNull, None | Some JNull, Some JNull => true
  | None, Some _ | Some _, None | Some JNull, Some _ | Some _, Some JNull => false
  | Some (JNum a), Some (JNum b) => a =? b
  | Some a, Some b => abstract_eq a b
  end.

(** [Number.prototype.toString] and [parseInt(s, 10)] on integers in
    decimal notation. *)
Definition Number_toString (n : Z) : string :=
  DecimalString.NilZero.string_of_int (Z.to_int n).

Definition parseInt (s : string) : option Z :=
  match DecimalString.NilZero.int_of_string s with
  | Some d => Some (Z.of_int d)
  | None => None
  end.

(** ** Payloads and cache entries *)

(** What the underlying [get] hands over as [buffer]: nothing, a string,
    a Buffer, or a structured value (a plain object or an array).
    Numbers and booleans are not payloads. *)
Inductive payload :=
| PUndefined
| PNull
| PString (s : string)
| PBuffer (b : bytes)
| PObject (o : object)
| PArray (l : list json).

(** What a callback receives as [buffer]. *)
Inductive value :=
| VUndefined
| VBuffer (b : bytes)
| VJson (j : json).

Definition payload_value (p : payload) : value :=
  match p with
  | PUndefined => VUndefined
  | PNull => VJson JNull
  | PString s => VJson (JStr s)
  | PBuffer b => VBuffer b
  | PObject o => VJson (JObj o)
  | PArray l => VJson (JArr l)
  end.

(** The metadata of a decoded entry: whatever [JSON.parse] returned for
    the header block, after [data.headers['x-tl-cache'] = 'hit'].  The
    assignment creates or updates the property of an object, adds an
    extra property to an array and is ignored on a primitive. *)
Inductive hval :=
| HObj (o : object)
| HArr (l : list json) (extra : object)
| HPrim (p : json).

(** [h[k]] for a property name [k] that is neither an index nor
    ["length"]. *)
Definition hval_get (k : string) (h : hval) : jsval :=
  match h with
  | HObj o => get_prop k o
  | HArr _ extra => get_prop k extra
  | HPrim _ => None
  end.

(** The object [decode] returns: [{ err }] or [{ headers, buffer }]. *)
Record entry := mkEntry {
  data_err : option error;
  data_buffer : value;
  data_headers : option hval
}.

(** What [encode] returns: a string for the error sentinels, [null] for
    an error that is not cached, a Buffer otherwise. *)
Inductive encoded :=
| EncString (s : string)
| EncNull
| EncBuffer (b : bytes).

(** ** Heap, trace and the monad of the orchestrator *)

Abbreviation loc := nat.

(** What a callback receives as [headers]. *)
Inductive cbheaders :=
| CbUndefined
| CbRef (l : loc)
| CbDecoded (h : hval).

(** An error value given to [client.error] or [client.emit]: an error
    object of a callback, or an exception caught by the program. *)
Inductive thrown :=
| Err (e : error)
| Exn (x : exn).

(** The calls the orchestrator makes on its collaborators. *)
Inductive event :=
| ClientGet (key : string)
| ClientSet (key : string) (ttl : Z) (val : encoded)
| ClientError (e : thrown) (key : string)   (* e.key = key; client.error(e) *)
| ClientEmit (name : string) (e : error)    (* client.emit(name, e) *)
| SourceGet (url : string)
| Callback (e : option error) (b : value) (h : cbheaders).

Record state := mkState {
  heap : gmap loc object;
  trace : list event;
  ticks : nat
}.

Definition M (A : Type) := state -> outcome A * state.

Definition ret {A} (a : A) : M A := fun st => (Ok a, st).
Definition throw {A} (e : exn) : M A := fun st => (Throw e, st).
Definition bind {A B} (m : M A) (f : A -> M B) : M B :=
  fun st => match m st with
            | (Ok a, st') => f a st'
            | (Throw e, st') => (Throw e, st')
            end.
(** [try { m } catch (e) { h e }] *)
Definition try_catch {A} (m : M A) (h : exn -> M A) : M A :=
  fun st => match m st with
            | (Ok a, st') => (Ok a, st')
            | (Throw e, st') => h e st'
            end.
Definition lift {A} (o : outcome A) : M A := fun st => (o, st).

#[export] Instance M_ret : MRet M := @ret.
#[export] Instance M_bind : MBind M := fun A B f m => bind m f.

Definition emit (e : event) : M unit :=
  fun st => (Ok tt, mkState (heap st) (trace st ++ [e]) (ticks st)).

(** [{}]-style allocation of an object. *)
Definition alloc (o : object) : M loc :=
  fun st => let l := fresh (dom (heap st)) in
            (Ok l, mkState (<[l := o]> (heap st)) (trace st) (ticks st)).

Definition deref (l : loc) : M object :=
  fun st => (Ok (default [] (heap st !! l)), st).

Definition update (l : loc) (f : object -> object) : M unit :=
  fun st => (Ok tt, mkState (<[l := f (default [] (heap st !! l))]> (heap st))
                            (trace st) (ticks st)).

(** ** The codec *)

Definition errcode (err : option error) : option Z :=
  match err with
  | None => None
  | Some e =>
      match statusCode e with
      | Some 404 => Some 404
      | Some 403 => Some 403
      | _ => None
      end
  end.

Definition offset : nat := 1024.

Section Codec.
Context `{Runtime}.

(** [buffer] after the conversions of lines 138-144 of [encode]: a
    Buffer, or a falsy value that was left as it is. *)
Inductive converted :=
| CBuffer (b : bytes)
| CEmptyString
| CNullish.

Definition convert (buffer : payload) (headers : loc) : M converted :=
  match buffer with
  | PObject o =>
      update headers (set_prop "x-tl-json" (JBool true));;
      ret (CBuffer (Buffer_from (JSON_stringify (JObj o))))
  | PArray l =>
      update headers (set_prop "x-tl-json" (JBool true));;
      ret (CBuffer (Buffer_from (JSON_stringify (JArr l))))
  | PString s =>
      if String.eqb s "" then ret CEmptyString else ret (CBuffer (Buffer_from s))
  | PBuffer b => ret (CBuffer b)
  | PUndefined | PNull => ret CNullish
  end.

(** [encode]; [headers] is the caller's metadata object, by reference,
    or [undefined].  [Buffer.concat] throws a TypeError on an element
    that is not a Buffer, as [buffer.length] does on [null] and
    [undefined]. *)
Definition encode (err : option error) (buffer : payload) (headers : option loc)
  : M encoded :=
  match errcode err with
  | Some c => ret (EncString (Number_toString c))
  | None =>
      match err with
      | Some _ => ret EncNull
      | None =>
          headers ← match headers with Some l => ret l | None => alloc [] end;
          buffer ← convert buffer headers;
          h ← deref headers;
          let headers := Buffer_from (JSON_stringify (JObj h)) in
          if (offset <? length headers)%nat then throw HeadersExceed
          else
            let padding := replicate (offset - length headers) " "%byte in
            match buffer with
            | CNullish => throw TypeError        (* buffer.length *)
            | CEmptyString => throw TypeError    (* Buffer.concat on a string *)
            | CBuffer b => ret (EncBuffer (headers ++ padding ++ b))
            end
      end
  end.

(** [data.headers['x-tl-cache'] = 'hit'] *)
Definition mark_hit (h : json) : outcome hval :=
  match h with
  | JNull => Throw TypeError
  | JObj o => Ok (HObj (set_prop "x-tl-cache" (JStr "hit") o))
  | JArr l => Ok (HArr l [("x-tl-cache", JStr "hit")])
  | p => Ok (HPrim p)
  end.

(** [v.length] *)
Definition value_length (v : value) : outcome jsval :=
  match v with
  | VUndefined => Throw TypeError
  | VBuffer b => Ok (Some (JNum (Z.of_nat (length b))))
  | VJson JNull => Throw TypeError
  | VJson (JStr s) => Ok (Some (JNum (Z.of_nat (String.length s))))
  | VJson (JArr l) => Ok (Some (JNum (Z.of_nat (length l))))
  | VJson (JObj o) => Ok (get_prop "length" o)
  | VJson _ => Ok None
  end.

(** [encoded === '404' || encoded === '403'] *)
Definition is_sentinel (s : string) : bool :=
  String.eqb s "404" || String.eqb s "403".

(** [decode] on a Buffer, which is what the store hands back. *)
Definition decode (encoded : bytes) : outcome entry :=
  if (length encoded =? 3)%nat && is_sentinel (Buffer_toString encoded) then
    Ok (mkEntry (Some (mkError (parseInt (Buffer_toString encoded)) true ""))
                VUndefined None)
  else
    match JSON_parse (trim (Buffer_toString (take offset encoded))) with
    | None => Throw InvalidCacheValue
    | Some h =>
        match mark_hit h with
        | Throw e => Throw e
        | Ok hv =>
            (* a 3-byte input was replaced by its string at line 160 *)
            let raw := if (length encoded =? 3)%nat
                       then VJson (JStr (Buffer_toString (drop offset encoded)))
                       else VBuffer (drop offset encoded) in
            let parsed :=
              if truthy (hval_get "x-tl-json" hv) then
                match JSON_parse (Buffer_toString (drop offset encoded)) with
                | None => Throw SyntaxError
                | Some j => Ok (VJson j)
                end
              else Ok raw in
            match parsed with
            | Throw e => Throw e
            | Ok buf =>
                let data := mkEntry None buf (Some hv) in
                let cl := hval_get "content-length" hv in
                if truthy cl then
                  match value_length buf with
                  | Throw e => Throw e
                  | Ok n => if negb (loose_eq cl n)
                            then Throw ContentLengthMismatch else Ok data
                  end
                else Ok data
            end
        end
    end.

End Codec.

(** ** The orchestrator *)

(** The collaborators of one lookup: what the cache client answers to
    [get], what the underlying [get] answers, and the successive readings
    of the clock.  The store hands back a Buffer, or nothing. *)
Record world := mkWorld {
  client_get : string -> option error * option bytes;
  source_get : string -> option error * payload * option loc;
  clock : nat -> Z
}.

(** [Date.now()], [Number(new Date())] *)
Definition Date_now (w : world) : M Z :=
  fun st => (Ok (clock w (ticks st)),
             mkState (heap st) (trace st) (S (ticks st))).

(** [Math.ceil(a / b)] on integers, [b] positive. *)
Definition ceil_div (a b : Z) : Z := - ((- a) / b).

Section Orchestrator.
Context `{Runtime}.
Variable w : world.

(** Lines 101-105: the callback given to [client.set], which the client
    runs when the write has completed. *)
Definition set_completed (key : string) (err : option error) : M unit :=
  match err with
  | None => ret tt
  | Some e => emit (ClientError (Err e) key)
  end.

(** Lines 79-108.  The clock is read at line 87, when there is no
    explicit expiration, and at line 91. *)
Definition setEx (key : string) (err : option error) (buffer : payload)
    (headers : loc) (ttl stale : Z) : M loc :=
  h ← deref headers;
  let expires := if truthy (get_prop "Expires" h)
                 then get_prop "Expires" h else get_prop "expires" h in
  update headers (delete_prop "Expires");;
  update headers (delete_prop "expires");;
  match (if truthy expires then expires else None) with
  | Some e =>
      update headers (set_prop "expires" e);;
      update headers (set_prop "x-tl-expires" e)
  | None =>
      now ← Date_now w;
      update headers
        (set_prop "x-tl-expires" (JStr (toUTCString (now + ttl * 1000))))
  end;;
  h' ← deref headers;
  let expiry := match get_prop "x-tl-expires" h' with
                | Some v => Date_time v
                | None => None
                end in
  now ← Date_now w;
  let pad := if truthy expires then 0 else stale in
  match expiry with
  | Some t =>
      let sec := ceil_div (t - now) 1000 in
      if 0 <? sec then
        val ← encode err buffer (Some headers);
        emit (ClientSet key (sec + pad) val)
      else ret tt
  | None => ret tt     (* sec is NaN *)
  end;;
  ret headers.

(** Lines 110-115.  The clock is read only when the entry has a truthy
    [x-tl-expires]. *)
Definition isFresh (d : entry) : M bool :=
  match data_headers d with
  | None => ret false
  | Some h =>
      match hval_get "x-tl-expires" h with
      | Some v =>
          if truthy (Some v) then
            now ← Date_now w;
            ret (match Date_time v with
                 | Some t => now <? t
                 | None => false
                 end)
          else ret false
      | None => ret false
      end
  end.

(** [headers || {}] *)
Definition or_empty (headers : option loc) : M loc :=
  match headers with
  | Some l => ret l
  | None => alloc []
  end.

Definition cbheaders_of (h : option hval) : cbheaders :=
  match h with
  | Some h => CbDecoded h
  | None => CbUndefined
  end.

Definition cbref (h : option loc) : cbheaders :=
  match h with
  | Some l => CbRef l
  | None => CbUndefined
  end.

(** [err && !errcode(err)] *)
Definition uncacheable (err : option error) : bool :=
  match err, errcode err with
  | Some _, None => true
  | _, _ => false
  end.

(** Line 45: the underlying [get] with the caller's own callback. *)
Definition passthrough (url : string) : M unit :=
  emit (SourceGet url);;
  let '(err, buffer, headers) := source_get w url in
  emit (Callback err (payload_value buffer) (cbref headers)).

(** Lines 61-66: the underlying [get] after a stale hit, and its
    callback. *)
Definition revalidate (key url : string) (ttl stale : Z) : M unit :=
  emit (SourceGet url);;
  let '(err, buffer, headers) := source_get w url in
  if uncacheable err then
    match err with
    | Some e => emit (ClientEmit "error" e)
    | None => ret tt
    end
  else
    headers ← or_empty headers;
    _ ← setEx key err buffer headers ttl stale;
    ret tt.

(** Lines 69-75: the underlying [get] after a miss, and its callback. *)
Definition fetch (key url : string) (ttl stale : Z) : M unit :=
  emit (SourceGet url);;
  let '(err, buffer, headers) := source_get w url in
  if uncacheable err then emit (Callback err VUndefined CbUndefined)
  else
    headers ← or_empty headers;
    headers ← setEx key err buffer headers ttl stale;
    emit (Callback err (payload_value buffer) (CbRef headers)).

(** The function returned by [cachingGet(namespace, options, get)],
    applied to [url] and to the caller's callback; [ttl] and [stale] are
    [options.ttl] and [options.stale] as lines 25-26 resolve them.  The
    callbacks given to [client.get] and to the underlying [get] are run
    with what the [world] answers. *)
Definition cachingGet (namespace : string) (ttl stale : Z) (url : string)
  : M unit :=
  let key := namespace +:+ "-" +:+ url in
  emit (ClientGet key);;
  let '(err, encoded) := client_get w key in
  match err with
  | Some e =>
      emit (ClientError (Err e) key);;
      passthrough url
  | None =>
      data ← match encoded with
             | Some encoded =>
                 try_catch (d ← lift (decode encoded); ret (Some d))
                           (fun e => emit (ClientError (Exn e) key);; ret None)
             | None => ret None
             end;
      match data with
      | Some data =>
          emit (Callback (data_err data) (data_buffer data)
                         (cbheaders_of (data_headers data)));;
          fresh ← isFresh data;
          if fresh : bool then ret tt
          else revalidate key url ttl stale
      | None => fetch key url ttl stale
      end
  end.

End Orchestrator.

(** ** An executable runtime

    A fragment of what Node provides, enough to run the program on
    concrete inputs: JSON over the values of [json] (integers for
    numbers, ASCII for text), dates in the format of [toUTCString], and
    [==] between numbers, booleans and strings of decimal digits. *)
Module Node.

(** The double quote and the backslash. *)
Definition dquote : ascii := ascii_of_nat 34.
Definition backslash : ascii := ascii_of_nat 92.

Definition hex_digit (n : nat) : ascii :=
  ascii_of_nat (if (n <? 10)%nat then 48 + n else 87 + n).

(** One character inside a JSON string literal. *)
Definition escape (c : ascii) : string :=
  let n := nat_of_ascii c in
  if (n =? 34)%nat then String backslash (String dquote "")
  else if (n =? 92)%nat then String backslash (String backslash "")
  else if (n =? 8)%nat then "\b"
  else if (n =? 12)%nat then "\f"
  else if (n =? 10)%nat then "\n"
  else if (n =? 13)%nat then "\r"
  else if (n =? 9)%nat then "\t"
  else if (n <? 32)%nat then
    "\u00" +:+ String (hex_digit (n / 16)) (String (hex_digit (n mod 16)) "")
  else String c "".

Fixpoint escape_all (s : string) : string :=
  match s with
  | EmptyString => ""
  | String c s' => escape c +:+ escape_all s'
  end.

Definition quote (s : string) : string :=
  String dquote (escape_all s +:+ String dquote "").

Fixpoint join (sep : string) (l : list string) : string :=
  match l with
  | [] => ""
  | [x] => x
  | x :: l' => x +:+ sep +:+ join sep l'
  end.

Fixpoint stringify (v : json) : string :=
  match v with
  | JNull => "null"
  | JBool true => "true"
  | JBool false => "false"
  | JNum n => Number_toString n
  | JStr s => quote s
  | JArr l => "[" +:+ join "," (map stringify l) +:+ "]"
  | JObj o =>
      "{" +:+ join "," (map (fun kv => quote (fst kv) +:+ ":" +:+ stringify (snd kv)) o)
          +:+ "}"
  end.

Definition is_json_ws (c : ascii) : bool :=
  let n := nat_of_ascii c in
  (n =? 32)%nat || (n =? 9)%nat || (n =? 10)%nat || (n =? 13)%nat.

Fixpoint skip_ws (s : string) : string :=
  match s with
  | String c s' => if is_json_ws c then skip_ws s' else s
  | EmptyString => EmptyString
  end.

Definition is_digit (c : ascii) : bool :=
  let n := nat_of_ascii c in ((48 <=? n) && (n <=? 57))%nat.

Fixpoint digits (s : string) : string * string :=
  match s with
  | String c s' =>
      if is_digit c then let '(d, r) := digits s' in (String c d, r)
      else (EmptyString, s)
  | EmptyString => (EmptyString, EmptyString)
  end.

(** An integer literal: an optional sign, then [0] or digits that do not
    start with [0]; a fraction or an exponent is outside the fragment. *)
Definition parse_number (s : string) : option (json * string) :=
  let '(neg, s1) := match s with
                    | String "-" s' => (true, s')
                    | _ => (false, s)
                    end in
  let '(d, r) := digits s1 in
  let leading_zero := match d with
                      | String "0" (String _ _) => true
                      | _ => false
                      end in
  let more := match r with
              | String "." _ | String "e" _ | String "E" _ => true
              | _ => false
              end in
  if leading_zero || more then None
  else match parseInt d with
       | Some n => Some (JNum (if neg then - n else n), r)
       | None => None
       end.

Definition hex_value (c : ascii) : option nat :=
  let n := nat_of_ascii c in
  if ((48 <=? n) && (n <=? 57))%nat then Some (n - 48)%nat
  else if ((97 <=? n) && (n <=? 102))%nat then Some (n - 87)%nat
  else if ((65 <=? n) && (n <=? 70))%nat then Some (n - 55)%nat
  else None.

(** The character an escape sequence [\e] stands for. *)
Definition unescape (e : ascii) : option ascii :=
  if Ascii.eqb e dquote then Some dquote
  else if Ascii.eqb e backslash then Some backslash
  else match e with
       | "/"%char => Some "/"%char
       | "b"%char => Some (ascii_of_nat 8)
       | "f"%char => Some (ascii_of_nat 12)
       | "n"%char => Some (ascii_of_nat 10)
       | "r"%char => Some (ascii_of_nat 13)
       | "t"%char => Some (ascii_of_nat 9)
       | _ => None
       end.

(** The rest of a string literal, after the opening quote. *)
Fixpoint parse_chars (s : string) : option (string * string) :=
  match s with
  | EmptyString => None
  | String c r =>
      if Ascii.eqb c dquote then Some (EmptyString, r)
      else if Ascii.eqb c backslash then
        match r with
        | String e r' =>
            match unescape e, parse_chars r' with
            | Some c', Some (t, r'') => Some (String c' t, r'')
            | _, _ => None
            end
        | EmptyString => None
        end
      else if (nat_of_ascii c <? 32)%nat then None
      else match parse_chars r with
           | Some (t, r') => Some (String c t, r')
           | None => None
           end
  end.

Definition expect (c : ascii) (s : string) : option string :=
  match skip_ws s with
  | String c' r => if Ascii.eqb c c' then Some r else None
  | EmptyString => None
  end.

Definition literal (lit : string) (v : json) (s : string) : option (json * string) :=
  if String.prefix lit s
  then Some (v, substring (String.length lit) (String.length s) s)
  else None.

Fixpoint parse_value (fuel : nat) (s : string) : option (json * string) :=
  match fuel with
  | O => None
  | S fuel =>
      match skip_ws s with
      | EmptyString => None
      | String c r as t =>
          if Ascii.eqb c dquote then
            match parse_chars r with
            | Some (str, r') => Some (JStr str, r')
            | None => None
            end
          else
            match c with
            | "n"%char => literal "null" JNull t
            | "t"%char => literal "true" (JBool true) t
            | "f"%char => literal "false" (JBool false) t
            | "["%char =>
                match expect "]" r with
                | Some r' => Some (JArr [], r')
                | None =>
                    match parse_elements fuel r with
                    | Some (l, r') => Some (JArr l, r')
                    | None => None
                    end
                end
            | "{"%char =>
                match expect "}" r with
                | Some r' => Some (JObj [], r')
                | None =>
                    match parse_members fuel r [] with
                    | Some (o, r') => Some (JObj o, r')
                    | None => None
                    end
                end
            | _ => parse_number t
            end
      end
  end
with parse_elements (fuel : nat) (s : string) : option (list json * string) :=
  match fuel with
  | O => None
  | S fuel =>
      match parse_value fuel s with
      | Some (v, r) =>
          match expect "]" r with
          | Some r' => Some ([v], r')
          | None =>
              match expect "," r with
              | Some r' =>
                  match parse_elements fuel r' with
                  | Some (l, r'') => Some (v :: l, r'')
                  | None => None
                  end
              | None => None
              end
          end
      | None => None
      end
  end
with parse_members (fuel : nat) (s : string) (acc : object)
  : option (object * string) :=
  match fuel with
  | O => None
  | S fuel =>
      match expect dquote s with
      | Some r =>
          match parse_chars r with
          | Some (k, r1) =>
              match expect ":" r1 with
              | Some r2 =>
                  match parse_value fuel r2 with
                  | Some (v, r3) =>
                      let acc := set_prop k v acc in
                      match expect "}" r3 with
                      | Some r' => Some (acc, r')
                      | None =>
                          match expect "," r3 with
                          | Some r' => parse_members fuel r' acc
                          | None => None
                          end
                      end
                  | None => None
                  end
              | None => None
              end
          | None => None
          end
      | None => None
      end
  end.

Definition parse (s : string) : option json :=
  match parse_value (2 * String.length s + 2) s with
  | Some (v, r) =>
      match skip_ws r with
      | EmptyString => Some v
      | _ => None
      end
  | None => None
  end.

(** Dates: milliseconds since 1970-01-01T00:00:00Z and the proleptic
    Gregorian calendar. *)
Definition civil_from_days (days : Z) : Z * Z * Z :=
  let z := days + 719468 in
  let era := z / 146097 in
  let doe := z - era * 146097 in
  let yoe := (doe - doe / 1460 + doe / 36524 - doe / 146096) / 365 in
  let doy := doe - (365 * yoe + yoe / 4 - yoe / 100) in
  let mp := (5 * doy + 2) / 153 in
  let d := doy - (153 * mp + 2) / 5 + 1 in
  let m := if mp <? 10 then mp + 3 else mp - 9 in
  let y := yoe + era * 400 + (if m <=? 2 then 1 else 0) in
  (y, m, d).

Definition days_from_civil (y m d : Z) : Z :=
  let y := if m <=? 2 then y - 1 else y in
  let era := y / 400 in
  let yoe := y - era * 400 in
  let doy := (153 * (if 2 <? m then m - 3 else m + 9) + 2) / 5 + d - 1 in
  let doe := yoe * 365 + yoe / 4 - yoe / 100 + doy in
  era * 146097 + doe - 719468.

Definition day_names : list string :=
  ["Sun"; "Mon"; "Tue"; "Wed"; "Thu"; "Fri"; "Sat"].
Definition month_names : list string :=
  ["Jan"; "Feb"; "Mar"; "Apr"; "May"; "Jun";
   "Jul"; "Aug"; "Sep"; "Oct"; "Nov"; "Dec"].

Definition digit_char (n : Z) : ascii := ascii_of_nat (48 + Z.to_nat (n mod 10)).
Definition two (n : Z) : string :=
  String (digit_char (n / 10)) (String (digit_char n) "").
Definition four (n : Z) : string := two (n / 100) +:+ two (n mod 100).

Definition utc_string (t : Z) : string :=
  let secs := t / 1000 in
  let days := secs / 86400 in
  let rem := secs mod 86400 in
  let '(y, m, d) := civil_from_days days in
  nth (Z.to_nat ((days + 4) mod 7)) day_names "" +:+ ", " +:+ two d +:+ " "
  +:+ nth (Z.to_nat (m - 1)) month_names "" +:+ " " +:+ four y +:+ " "
  +:+ two (rem / 3600) +:+ ":" +:+ two (rem mod 3600 / 60) +:+ ":"
  +:+ two (rem mod 60) +:+ " GMT".

Definition number_at (i n : nat) (s : string) : option Z :=
  let d := substring i n s in
  if forallb is_digit (list_ascii_of_string d) && (String.length d =? n)%nat
  then parseInt d else None.

Fixpoint index_of (x : string) (l : list string) (i : Z) : option Z :=
  match l with
  | [] => None
  | y :: l' => if String.eqb x y then Some i else index_of x l' (i + 1)
  end.

(** [Date.parse] on the format [Www, DD Mon YYYY HH:MM:SS GMT]. *)
Definition parse_date (s : string) : option Z :=
  if negb (String.length s =? 29)%nat then None
  else if negb (String.eqb (substring 3 2 s) ", " && String.eqb (substring 7 1 s) " "
          && String.eqb (substring 11 1 s) " " && String.eqb (substring 16 1 s) " "
          && String.eqb (substring 19 1 s) ":" && String.eqb (substring 22 1 s) ":"
          && String.eqb (substring 25 4 s) " GMT") then None
  else
    match number_at 5 2 s, index_of (substring 8 3 s) month_names 1,
          number_at 12 4 s, number_at 17 2 s, number_at 20 2 s, number_at 23 2 s with
    | Some d, Some m, Some y, Some hh, Some mm, Some ss =>
        if (1 <=? d) && (d <=? 31) && (hh <? 24) && (mm <? 60) && (ss <? 60)
        then Some ((days_from_civil y m d * 86400 + hh * 3600 + mm * 60 + ss) * 1000)
        else None
    | _, _, _, _, _, _ => None
    end.

Definition date_time (v : json) : option Z :=
  match v with
  | JNull => Some 0
  | JBool b => Some (if b then 1 else 0)
  | JNum n => if Z.abs n <=? 8640000000000000 then Some n else None
  | JStr s => parse_date s
  | JArr _ | JObj _ => None
  end.

(** [ToNumber] on a string of decimal digits. *)
Definition to_number (s : string) : option Z :=
  match parse_number s with
  | Some (JNum n, EmptyString) => Some n
  | _ => None
  end.

Definition eq_number (n : Z) (o : option Z) : bool :=
  match o with
  | Some m => n =? m
  | None => false
  end.

Definition converting_eq (x y : json) : bool :=
  let num b := if b : bool then 1 else 0 in
  match x, y with
  | JStr a, JStr b => String.eqb a b
  | JBool a, JBool b => Bool.eqb a b
  | JNum a, JStr s | JStr s, JNum a => eq_number a (to_number s)
  | JNum a, JBool b | JBool b, JNum a => a =? num b
  | JBool b, JStr s | JStr s, JBool b => eq_number (num b) (to_number s)
  | _, _ => false
  end.

#[export] Instance runtime : Runtime := {|
  JSON_stringify := stringify;
  JSON_parse := parse;
  Date_time := date_time;
  toUTCString := utc_string;
  abstract_eq := converting_eq
|}.

End Node.

(** ** Reading the codec

    The functions below name what [encode] does to its arguments; the
    lemmas [encode_run] and [decode_block] relate them to the code. *)

(** The structured value behind an object or array payload. *)
Definition structured (p : payload) : option json :=
  match p with
  | PObject o => Some (JObj o)
  | PArray l => Some (JArr l)
  | _ => None
  end.

(** The metadata [encode] serializes: the caller's, with the JSON flag
    set when the payload is structured. *)
Definition encoded_meta (p : payload) (h : object) : object :=
  match structured p with
  | Some _ => set_prop "x-tl-json" (JBool true) h
  | None => h
  end.

(** The bytes [encode] lays out after the header block; [None] for the
    payloads it leaves unconverted ([undefined], [null], [""]). *)
Definition payload_bytes `{Runtime} (p : payload) : option bytes :=
  match p with
  | PObject o => Some (Buffer_from (JSON_stringify (JObj o)))
  | PArray l => Some (Buffer_from (JSON_stringify (JArr l)))
  | PString s => if String.eqb s "" then None else Some (Buffer_from s)
  | PBuffer b => Some b
  | PUndefined | PNull => None
  end.

(** The payload as [decode] gives it back: bytes for a string or a
    Buffer, the value itself for a structured payload. *)
Definition decoded (p : payload) : value :=
  match p with
  | PObject o => VJson (JObj o)
  | PArray l => VJson (JArr l)
  | PString s => VBuffer (Buffer_from s)
  | PBuffer b => VBuffer b
  | PUndefined | PNull => VUndefined
  end.

Definition padding (hd : bytes) : bytes :=
  replicate (offset - length hd) " "%byte.

(** The state in which only the object at [l] differs. *)
Definition with_object (l : loc) (o : object) (st : state) : state :=
  mkState (<[l := o]> (heap st)) (trace st) (ticks st).

(** ** Reading the orchestrator *)

(** The state after one more reading of the clock, and after one more
    call on a collaborator. *)
Definition tick (st : state) : state :=
  mkState (heap st) (trace st) (S (ticks st)).

Definition log (e : event) (st : state) : state :=
  mkState (heap st) (trace st ++ [e]) (ticks st).

(** [headers.Expires || headers.expires] *)
Definition explicit_expires (h : object) : jsval :=
  if truthy (get_prop "Expires" h) then get_prop "Expires" h
  else get_prop "expires" h.

(** The headers after lines 80-88 of [setEx], with an explicit
    expiration [e] and with the computed expiration [x]. *)
Definition stamped (h : object) (e : json) : object :=
  set_prop "x-tl-expires" e
    (set_prop "expires" e (delete_prop "expires" (delete_prop "Expires" h))).

Definition defaulted (h : object) (x : string) : object :=
  set_prop "x-tl-expires" (JStr x)
    (delete_prop "expires" (delete_prop "Expires" h)).

(** The store writes of a trace: key, TTL and value of each
    [client.set]. *)
Definition writes (tr : list event) : list (string * Z * encoded) :=
  omap (fun e => match e with
                 | ClientSet k n v => Some (k, n, v)
                 | _ => None
                 end) tr.

(** What a revalidation in the background may do once the underlying
    [get] has been called: [client.set] and [client.emit]. *)
Definition background (e : event) : bool :=
  match e with
  | ClientSet _ _ _ | ClientEmit _ _ => true
  | _ => false
  end.

(** [m] only adds events that satisfy [P] to the trace. *)
Definition emits (P : event -> bool) {A} (m : M A) : Prop :=
  forall st, exists evs,
    trace (snd (m st)) = trace st ++ evs /\ forallb P evs = true.

(** The headers after lines 80-88 of [setEx], where [x] is the date
    computed from the clock and [ttl]. *)
Definition rewritten (h : object) (x : string) : object :=
  match explicit_expires h with
  | Some e => if truthy (Some e) then stamped h e else defaulted h x
  | None => defaulted h x
  end.


(** ** The factory and the wrapper *)






(** ** Reading [isFresh] *)

(** Whether an entry is fresh at the time [now], and whether [isFresh]
    reads the clock for it. *)
Definition reads_clock (d : entry) : bool :=
  match data_headers d with
  | Some h => truthy (hval_get "x-tl-expires" h)
  | None => false
  end.

Definition fresh_at `{Runtime} (d : entry) (now : Z) : bool :=
  match data_headers d with
  | Some h =>
      match hval_get "x-tl-expires" h with
      | Some v =>
          truthy (Some v)
          && match Date_time v with
             | Some t => now <? t
             | None => false
             end
      | None => false
      end
  | None => false
  end.

(** ** Reading a lookup *)

(** How many events of a trace satisfy [f]. *)
Definition count (f : event -> bool) (evs : list event) : nat :=
  length (List.filter f evs).

Definition is_callback (e : event) : bool :=
  match e with Callback _ _ _ => true | _ => false end.

Definition is_source_get (e : event) : bool :=
  match e with SourceGet _ => true | _ => false end.

Definition is_client_set (e : event) : bool :=
  match e with ClientSet _ _ _ => true | _ => false end.

(** The header fields that [setEx] and [encode] write. *)
Definition reserved (k : string) : bool :=
  String.eqb k "Expires" || String.eqb k "expires"
  || String.eqb k "x-tl-expires" || String.eqb k "x-tl-json".

(** The headers object that the underlying [get] hands over is one of
    the heap. *)
Definition allocated (hd : option loc) (st : state) : Prop :=
  match hd with
  | Some l => is_Some (heap st !! l)
  | None => True
  end.

(** The value stored for a result with the error [err]: the text of the
    code for a 404 or a 403, a Buffer otherwise. *)
Definition stored (err : option error) (val : encoded) : Prop :=
  match errcode err with
  | Some c => val = EncString (Number_toString c)
  | None => exists out, val = EncBuffer out
  end.

(** A [client.set] under [key] whose TTL is a positive number of seconds
    plus a padding that is [0] or [stale]. *)
Definition store_write (key : string) (stale : Z) (err : option error)
    (e : event) : Prop :=
  exists sec pad val,
    0 < sec /\ (pad = 0 \/ pad = stale) /\ stored err val /\
    e = ClientSet key (sec + pad) val.

(** [m] does not look at the trace: from a heap and a clock it gives one
    result, one heap, one clock and one list of events, which it appends
    to whatever trace it starts with. *)
Definition oblivious {A} (m : M A) : Prop :=
  forall hp tk, exists r hp' tk' evs,
    forall t, m (mkState hp t tk) = (r, mkState hp' (t ++ evs) tk').

(** ** Concrete inputs *)

Module Examples.
Import Node.

(** A state whose heap holds one headers object, at location [0]. *)
Definition single (h : object) : state := mkState {[ 0%nat := h ]} [] 0.

Definition not_found : error := mkError (Some 404) false "Not Found".
Definition server_error : error := mkError (Some 500) false "Internal Server Error".

(** JSON text, written with ['] for the double quote. *)
Fixpoint js (s : string) : string :=
  match s with
  | EmptyString => EmptyString
  | String c s' => String (if Ascii.eqb c "'" then dquote else c) (js s')
  end.

(** A header block followed by a payload, as [encode] lays them out. *)
Definition block (hd body : string) : bytes :=
  Buffer_from hd ++ padding (Buffer_from hd) ++ Buffer_from body.

(** The header [{'content-length':12,'x-tl-json':true}] followed by the
    payload [{'id':'foo'}]: what
    [encode(null, {id: 'foo'}, {'content-length': 12})] returns. *)
Definition json_with_length : bytes :=
  block (js "{'content-length':12,'x-tl-json':true}") (js "{'id':'foo'}").

(** Metadata whose JSON text has 1018 bytes, and 1035 with the JSON
    flag. *)
Definition large_headers : object :=
  [("a", JStr (string_of_list_ascii (repeat "x"%char 1010)))].

(** An entry that expired on 2 November 2016 at 22:33:00 GMT. *)
Definition expired_entry : bytes :=
  block (js "{'x-tl-expires':'Wed, 02 Nov 2016 22:33:00 GMT'}") "hello".

(** A clock that reads 22:33:20.123 GMT on that day, then advances by
    one millisecond at each reading. *)
Definition later (n : nat) : Z := 1478126000123 + Z.of_nat n.



(** The store holds [expired_entry]; the underlying [get] answers 500. *)
Definition stale_500 : world :=
  mkWorld (fun _ => (None, Some expired_entry))
          (fun _ => (Some server_error, PUndefined, None))
          later.

(** The store is empty; the underlying [get] answers [{id: 'foo'}] with
    the headers object at location [0]. *)
Definition miss_json : world :=
  mkWorld (fun _ => (None, None))
          (fun _ => (None, PObject [("id", JStr "foo")], Some 0%nat))
          later.

(** Headers with an expiration five minutes after the first reading of
    [later], to the second. *)
Definition upstream_headers : object :=
  [("Expires", JStr "Wed, 02 Nov 2016 22:38:20 GMT")].

(** A decoded entry that expires on 2 November 2016 at 22:33:30 GMT, ten
    seconds after the first reading of [later]. *)
Definition fresh_entry : entry :=
  mkEntry None (VBuffer (Buffer_from "hello"))
    (Some (HObj [("x-tl-expires", JStr "Wed, 02 Nov 2016 22:33:30 GMT");
                 ("x-tl-cache", JStr "hit")])).

Definition empty_state : state := mkState ∅ [] 0.

Definition store_error : error := mkError None false "ECONNREFUSED".

(** An entry that expires on 2 November 2016 at 22:33:30 GMT, ten
    seconds after the first reading of [later]. *)
Definition unexpired_entry : bytes :=
  block (js "{'x-tl-expires':'Wed, 02 Nov 2016 22:33:30 GMT'}") "hello".

(** [client.get] fails; the underlying [get] answers ['hello'] with the
    headers object at location [0]. *)
Definition store_down : world :=
  mkWorld (fun _ => (Some store_error, None))
          (fun _ => (None, PString "hello", Some 0%nat))
          later.

(** The store holds [unexpired_entry]. *)
Definition hit_fresh : world :=
  mkWorld (fun _ => (None, Some unexpired_entry))
          (fun _ => (None, PString "hello", Some 0%nat))
          later.

(** The store is empty; the underlying [get] answers 500. *)
Definition miss_500 : world :=
  mkWorld (fun _ => (None, None))
          (fun _ => (Some server_error, PUndefined, None))
          later.


(** Headers with an expiration and a content type. *)
Definition typed_headers : object :=
  [("Expires", JStr "Wed, 02 Nov 2016 22:38:20 GMT");
   ("content-type", JStr "application/json")].

(** The header [{'content-length':5}] followed by the six bytes
    [hello!]. *)
Definition wrong_length : bytes :=
  block (js "{'content-length':5}") "hello!".

(** [expired_entry], decoded. *)
Definition stale_entry : entry :=
  mkEntry None (VBuffer (Buffer_from "hello"))
    (Some (HObj [("x-tl-expires", JStr "Wed, 02 Nov 2016 22:33:00 GMT");
                 ("x-tl-cache", JStr "hit")])).

(** Two headers objects, at locations [0] and [1]. *)
Definition two_objects : state :=
  mkState {[ 0%nat := []; 1%nat := upstream_headers ]} [] 0.

End Examples.

(** * Properties *)

(** ** Objects *)

Lemma get_set_eq k v o : get_prop k (set_prop k v o) = Some v.
Proof.
  induction o as [|[k' v'] o IH]; simpl.
  - by rewrite String.eqb_refl.
  - destruct (String.eqb k k') eqn:E; simpl; rewrite E; [done | apply IH].
Qed.

Lemma get_set_ne k k' v o :
  k <> k' -> get_prop k (set_prop k' v o) = get_prop k o.
Proof.
  intros Hne. induction o as [|[k1 v1] o IH]; simpl.
  - by apply String.eqb_neq in Hne as ->.
  - destruct (String.eqb k' k1) eqn:E; simpl.
    + apply String.eqb_eq in E as <-. by apply String.eqb_neq in Hne as ->.
    + by rewrite IH.
Qed.


Lemma get_delete_ne k k' o :
  k <> k' -> get_prop k (delete_prop k' o) = get_prop k o.
Proof.
  intros Hne. induction o as [|[k1 v1] o IH]; simpl; [done|].
  destruct (String.eqb k' k1) eqn:E; simpl.
  - apply String.eqb_eq in E as <-. by apply String.eqb_neq in Hne as ->.
  - by rewrite IH.
Qed.

(** ** Text *)

Arguments Buffer_toString : simpl never.
Arguments Buffer_from : simpl never.

Lemma toString_app (a b : bytes) :
  Buffer_toString (a ++ b) = Buffer_toString a +:+ Buffer_toString b.
Proof.
  unfold Buffer_toString, string_of_list_byte.
  induction a as [|x a IH]; simpl; [done|]. by rewrite IH.
Qed.

Lemma toString_from s : Buffer_toString (Buffer_from s) = s.
Proof. apply string_of_list_byte_of_string. Qed.

Lemma trim_end_spaces n :
  trim_end (Buffer_toString (replicate n " "%byte)) = "".
Proof.
  unfold Buffer_toString, string_of_list_byte.
  induction n as [|n IHn]; simpl; [done|]. by rewrite IHn.
Qed.

Lemma trim_start_spaces n :
  trim_start (Buffer_toString (replicate n " "%byte)) = "".
Proof.
  unfold Buffer_toString, string_of_list_byte.
  induction n as [|n IHn]; simpl; [done|]. apply IHn.
Qed.

Lemma trim_end_padding s n :
  trim_end (s +:+ Buffer_toString (replicate n " "%byte)) = trim_end s.
Proof.
  induction s as [|c s IH]; simpl.
  - apply trim_end_spaces.
  - by rewrite IH.
Qed.

Lemma trim_padding s n :
  trim (s +:+ Buffer_toString (replicate n " "%byte)) = trim s.
Proof.
  unfold trim. induction s as [|c s IH]; simpl.
  - change ("" +:+ ?x) with x. by rewrite trim_start_spaces.
  - destruct (is_ws c); [apply IH|].
    apply (trim_end_padding (String c s)).
Qed.

(** The header block and the payload of a value laid out by [encode]. *)
Lemma take_block (hd pad b : bytes) :
  (length hd + length pad = offset)%nat ->
  take offset (hd ++ pad ++ b) = hd ++ pad.
Proof.
  intros Hlen. rewrite app_assoc. apply take_app_length'.
  by rewrite length_app.
Qed.

Lemma drop_block (hd pad b : bytes) :
  (length hd + length pad = offset)%nat ->
  drop offset (hd ++ pad ++ b) = b.
Proof.
  intros Hlen. rewrite app_assoc. apply drop_app_length'.
  by rewrite length_app.
Qed.

(** ** Runs of the codec *)

Section CodecFacts.
Context `{Runtime}.

Lemma with_object_same l o st :
  heap st !! l = Some o -> with_object l o st = st.
Proof.
  intros Hl. destruct st as [hp tr tk]. unfold with_object. simpl in *.
  by rewrite insert_id.
Qed.

Lemma encode_sentinel e c p hd st :
  errcode (Some e) = Some c ->
  encode (Some e) p hd st = (Ok (EncString (Number_toString c)), st).
Proof. intros Hc. unfold encode. by rewrite Hc. Qed.

(** [encode] on a result without error, as a function of the caller's
    metadata [h]. *)
Lemma encode_run p l h st :
  heap st !! l = Some h ->
  let meta := encoded_meta p h in
  let hd := Buffer_from (JSON_stringify (JObj meta)) in
  encode None p (Some l) st =
    (if (offset <? length hd)%nat then Throw HeadersExceed
     else match payload_bytes p with
          | Some b => Ok (EncBuffer (hd ++ padding hd ++ b))
          | None => Throw TypeError
          end,
     with_object l meta st).
Proof.
  intros Hl meta hd. subst meta hd.
  unfold encode, convert, encoded_meta, payload_bytes, padding. simpl.
  destruct p as [| |s|b|o|a]; simpl;
    unfold mbind, M_bind, bind, mret, M_ret, ret, deref, update, throw; simpl;
    rewrite ?lookup_insert_eq, ?Hl; simpl;
    try (rewrite (with_object_same l h st Hl)).
  - by destruct (_ <? _)%nat.
  - by destruct (_ <? _)%nat.
  - destruct (String.eqb s ""); simpl; rewrite Hl; simpl;
      by destruct (_ <? _)%nat.
  - by destruct (_ <? _)%nat.
  - unfold with_object. by destruct (_ <? _)%nat.
  - unfold with_object. by destruct (_ <? _)%nat.
Qed.

Lemma length_block (hd b : bytes) :
  (length hd <= offset)%nat ->
  length (hd ++ padding hd ++ b) = (offset + length b)%nat.
Proof.
  intros Hle. unfold padding. rewrite !length_app, length_replicate. lia.
Qed.

(** [decode] on a value whose header block is [hd], padded, and parses
    to the object [meta]. *)
Lemma decode_block hd body meta :
  (length hd <= offset)%nat ->
  JSON_parse (trim (Buffer_toString hd)) = Some (JObj meta) ->
  decode (hd ++ padding hd ++ body) =
    let hv := HObj (set_prop "x-tl-cache" (JStr "hit") meta) in
    let cl := get_prop "content-length" meta in
    match (if truthy (get_prop "x-tl-json" meta)
           then match JSON_parse (Buffer_toString body) with
                | None => Throw SyntaxError
                | Some j => Ok (VJson j)
                end
           else Ok (VBuffer body)) with
    | Throw e => Throw e
    | Ok buf =>
        if truthy cl then
          match value_length buf with
          | Throw e => Throw e
          | Ok n => if negb (loose_eq cl n) then Throw ContentLengthMismatch
                    else Ok (mkEntry None buf (Some hv))
          end
        else Ok (mkEntry None buf (Some hv))
    end.
Proof.
  intros Hle Hparse.
  assert (Hpad : (length hd + length (padding hd) = offset)%nat).
  { unfold padding. rewrite length_replicate. lia. }
  unfold decode.
  assert (Hlen : (length (hd ++ padding hd ++ body) =? 3)%nat = false).
  { apply Nat.eqb_neq. rewrite length_block by done. unfold offset. lia. }
  rewrite Hlen, take_block, drop_block by done. simpl.
  rewrite toString_app. unfold padding at 1. rewrite trim_padding, Hparse.
  simpl. rewrite !get_set_ne by done. reflexivity.
Qed.

End CodecFacts.

(** ** Claims about the codec *)

Section CodecClaims.
Context `{Runtime}.

(** C9. Encoding a result whose error has status code 404 or 403 gives
    the 3-byte text of the code, whatever the payload and the metadata,
    and leaves the heap untouched; decoding these 3 bytes gives an entry
    with an error of that status code (marked [tlcache]), no payload and
    no metadata. *)
Theorem error_compactness (e : error) (c : Z) (p : payload) (hd : option loc)
    (st : state) :
  statusCode e = Some c ->
  c = 404 \/ c = 403 ->
  exists s,
    encode (Some e) p hd st = (Ok (EncString s), st) /\
    length (Buffer_from s) = 3%nat /\
    decode (Buffer_from s) =
      Ok (mkEntry (Some (mkError (Some c) true "")) VUndefined None).
Proof.
  intros Hs [-> | ->].
  - exists "404". split; [|by split].
    apply (encode_sentinel e 404). unfold errcode. by rewrite Hs.
  - exists "403". split; [|by split].
    apply (encode_sentinel e 403). unfold errcode. by rewrite Hs.
Qed.

(** C8 (amended). What counts is the metadata as [encode] serializes
    it, that is with the JSON flag it sets for a structured payload.  If
    that text has more than 1024 bytes, [encode] throws its error,
    whatever the payload.  If it has at most 1024 bytes and the payload
    is a Buffer, a non-empty string or a structured value, [encode]
    returns the text, spaces up to 1024 bytes, then the payload bytes. *)
Theorem encode_headers_limit (p : payload) (l : loc) (h : object) (st : state) :
  heap st !! l = Some h ->
  let hd := Buffer_from (JSON_stringify (JObj (encoded_meta p h))) in
  ((offset < length hd)%nat ->
   fst (encode None p (Some l) st) = Throw HeadersExceed) /\
  ((length hd <= offset)%nat ->
   forall b, payload_bytes p = Some b ->
     fst (encode None p (Some l) st)
       = Ok (EncBuffer (hd ++ replicate (offset - length hd) " "%byte ++ b)) /\
     take offset (hd ++ replicate (offset - length hd) " "%byte ++ b)
       = hd ++ replicate (offset - length hd) " "%byte /\
     drop offset (hd ++ replicate (offset - length hd) " "%byte ++ b) = b).
Proof.
  intros Hl hd. rewrite (encode_run p l h st Hl). simpl. fold hd. split.
  - intros Hlen. by apply Nat.ltb_lt in Hlen as ->.
  - intros Hlen b Hb. apply Nat.ltb_ge in Hlen as Hlt. rewrite Hlt, Hb.
    assert (Hpad : (length hd + length (padding hd) = offset)%nat).
    { unfold padding. rewrite length_replicate. lia. }
    split; [done|]. fold (padding hd).
    by rewrite take_block, drop_block.
Qed.

(** Without JSON flag, the content-length check is against the bytes
    after the header block: [decode] fails with 'Content length does not
    match' exactly when the declared content-length is truthy and not
    [==] to their number. *)
Lemma content_length_bytes hd body meta :
  (length hd <= offset)%nat ->
  JSON_parse (trim (Buffer_toString hd)) = Some (JObj meta) ->
  truthy (get_prop "x-tl-json" meta) = false ->
  let cl := get_prop "content-length" meta in
  decode (hd ++ padding hd ++ body) = Throw ContentLengthMismatch <->
  truthy cl = true /\
  loose_eq cl (Some (JNum (Z.of_nat (length body)))) = false.
Proof.
  intros Hlen Hparse Hflag cl. rewrite (decode_block hd body meta Hlen Hparse).
  simpl. rewrite Hflag. fold cl. simpl.
  destruct (truthy cl); [|split; [discriminate | by intros [? _]]].
  destruct (loose_eq cl _); simpl; split; try done.
  by intros [_ ?].
Qed.

(** C1 (amended). A payload that is a Buffer, a non-empty string or a
    structured value, with metadata that serializes to at most 1024 bytes
    and that the runtime's JSON reads back, survives the round trip:
    bytes come back as the same bytes when the metadata carries no JSON
    flag of its own and declares no content-length or the byte length;
    a structured value comes back as that value, through the JSON flag
    set on the caller's metadata, when no content-length is declared.
    The metadata comes back as serialized, marked as a cache hit. *)
Theorem round_trip (p : payload) (l : loc) (h : object) (st : state) :
  heap st !! l = Some h ->
  let meta := encoded_meta p h in
  let text := JSON_stringify (JObj meta) in
  let cl := get_prop "content-length" h in
  is_Some (payload_bytes p) ->
  (length (Buffer_from text) <= offset)%nat ->
  JSON_parse text = Some (JObj meta) ->
  trim text = text ->
  (forall j, structured p = Some j ->
     JSON_parse (JSON_stringify j) = Some j /\ truthy cl = false) ->
  (forall b, structured p = None -> payload_bytes p = Some b ->
     truthy (get_prop "x-tl-json" h) = false /\
     (truthy cl = false \/
      loose_eq cl (Some (JNum (Z.of_nat (length b)))) = true)) ->
  exists out,
    encode None p (Some l) st = (Ok (EncBuffer out), with_object l meta st) /\
    decode out =
      Ok (mkEntry None (decoded p)
            (Some (HObj (set_prop "x-tl-cache" (JStr "hit") meta)))).
Proof.
  intros Hl meta text cl [b Hb] Hlen Hparse Htrim Hstruct Hbytes.
  exists (Buffer_from text ++ padding (Buffer_from text) ++ b). split.
  { rewrite (encode_run p l h st Hl). fold meta text.
    apply Nat.ltb_ge in Hlen as ->. by rewrite Hb. }
  rewrite (decode_block _ _ meta Hlen) by (by rewrite toString_from, Htrim).
  destruct (structured p) as [j|] eqn:Hj.
  - destruct (Hstruct j eq_refl) as [Hpj Hcl].
    assert (Hbj : b = Buffer_from (JSON_stringify j) /\ decoded p = VJson j).
    { destruct p; simpl in *; inversion Hj; inversion Hb; by subst. }
    destruct Hbj as [-> ->].
    assert (Hflag : get_prop "x-tl-json" meta = Some (JBool true)).
    { subst meta. unfold encoded_meta. rewrite Hj. apply get_set_eq. }
    assert (Hcl' : get_prop "content-length" meta = cl).
    { subst meta. unfold encoded_meta. rewrite Hj. by apply get_set_ne. }
    simpl. rewrite Hflag, Hcl', toString_from, Hpj. simpl. by rewrite Hcl.
  - destruct (Hbytes b eq_refl Hb) as [Hflag Hcl].
    assert (Hmeta : meta = h).
    { subst meta. unfold encoded_meta. by rewrite Hj. }
    assert (Hd : decoded p = VBuffer b).
    { destruct p; simpl in *; try discriminate; try by inversion Hb.
      destruct (String.eqb s ""); by inversion Hb. }
    simpl. rewrite Hmeta, Hflag, Hd. fold cl. simpl.
    destruct Hcl as [-> | Heq]; [done|].
    destruct (truthy cl); [|done]. by rewrite Heq.
Qed.

(** Which inputs are the 3-byte sentinels. *)
Lemma is_sentinel_bytes (encoded : bytes) :
  is_sentinel (Buffer_toString encoded) = true ->
  encoded = Buffer_from "404" \/ encoded = Buffer_from "403".
Proof.
  unfold is_sentinel. intros Hs. apply orb_true_iff in Hs.
  destruct Hs as [Hs | Hs]; apply String.eqb_eq in Hs; [left | right];
    rewrite <- Hs; unfold Buffer_from, Buffer_toString;
    by rewrite list_byte_of_string_of_list_byte.
Qed.

(** C4 (amended). [decode] does not check the length of its input.  On an
    input shorter than 1024 bytes that is not a sentinel, the whole input
    is the header block and the payload is empty: [decode] fails with
    'Invalid cache value' when the trimmed input is not JSON, and when
    it is a JSON object without JSON flag and without content-length,
    [decode] returns an entry with that metadata and an empty payload. *)
Theorem decode_short (encoded : bytes) :
  (length encoded < offset)%nat ->
  encoded <> Buffer_from "404" ->
  encoded <> Buffer_from "403" ->
  (JSON_parse (trim (Buffer_toString encoded)) = None ->
   decode encoded = Throw InvalidCacheValue) /\
  (forall meta,
     JSON_parse (trim (Buffer_toString encoded)) = Some (JObj meta) ->
     truthy (get_prop "x-tl-json" meta) = false ->
     truthy (get_prop "content-length" meta) = false ->
     decode encoded =
       Ok (mkEntry None
             (if (length encoded =? 3)%nat then VJson (JStr "") else VBuffer [])
             (Some (HObj (set_prop "x-tl-cache" (JStr "hit") meta))))).
Proof.
  intros Hlen H404 H403.
  assert (Hs : (length encoded =? 3)%nat
               && is_sentinel (Buffer_toString encoded) = false).
  { destruct (is_sentinel (Buffer_toString encoded)) eqn:Hs.
    - by destruct (is_sentinel_bytes _ Hs).
    - apply andb_false_r. }
  unfold decode. rewrite Hs, take_ge, drop_ge by lia. split.
  - by intros ->.
  - intros meta -> Hflag Hcl. simpl.
    rewrite !get_set_ne by done. rewrite Hflag, Hcl.
    by destruct (length encoded =? 3)%nat.
Qed.

End CodecClaims.

Import Node Examples.

Lemma error_compactness_witness :
  statusCode not_found = Some 404 /\
  (404 = 404 \/ 404 = 403) /\
  exists s,
    encode (Some not_found) (PString "ignored") None (single []) =
      (Ok (EncString s), single []) /\
    length (Buffer_from s) = 3%nat /\
    decode (Buffer_from s) =
      Ok (mkEntry (Some (mkError (Some 404) true "")) VUndefined None).
Proof.
  split; [reflexivity|]. split; [by left|].
  apply (error_compactness not_found 404); [reflexivity | by left].
Defined.

Lemma round_trip_witness :
  let p := PString "hello world" in
  let h := [("content-length", JNum 11)] in
  let text := JSON_stringify (JObj (encoded_meta p h)) in
  heap (single h) !! 0%nat = Some h /\
  is_Some (payload_bytes p) /\
  (length (Buffer_from text) <= offset)%nat /\
  JSON_parse text = Some (JObj (encoded_meta p h)) /\
  trim text = text /\
  exists out,
    encode None p (Some 0%nat) (single h) =
      (Ok (EncBuffer out), with_object 0%nat (encoded_meta p h) (single h)) /\
    decode out =
      Ok (mkEntry None (VBuffer (Buffer_from "hello world"))
            (Some (HObj [("content-length", JNum 11); ("x-tl-cache", JStr "hit")]))).
Proof.
  intros p h text.
  assert (Hl : heap (single h) !! 0%nat = Some h) by reflexivity.
  assert (Hb : is_Some (payload_bytes p)) by (by exists (Buffer_from "hello world")).
  assert (Hlen : (length (Buffer_from text) <= offset)%nat) by (vm_compute; lia).
  assert (Hparse : JSON_parse text = Some (JObj (encoded_meta p h))) by reflexivity.
  assert (Htrim : trim text = text) by reflexivity.
  repeat (split; [assumption|]).
  apply (round_trip p 0%nat h (single h) Hl Hb Hlen Hparse Htrim).
  - intros j Hj. discriminate Hj.
  - intros b _ Hb'. injection Hb' as <-. split; [reflexivity|]. right. reflexivity.
Defined.

(** C1, as stated, fails in two ways that the format intends.  The JSON
    flag lives in the metadata: when the caller's metadata already
    carries it, [encode(null, new Buffer('hello'), {'x-tl-json': true})]
    succeeds with metadata of 18 bytes and [decode] of the result throws
    a SyntaxError instead of returning the bytes.  And the flag counts:
    [large_headers] serializes to 1018 bytes, but [encode] of them with
    the payload [{id: 'foo'}] throws, because of the flag it adds. *)
Lemma round_trip_counterexample :
  let h := [("x-tl-json", JBool true)] in
  ((length (Buffer_from (JSON_stringify (JObj h))) <= offset)%nat /\
   exists out,
     fst (encode None (PBuffer (Buffer_from "hello")) (Some 0%nat) (single h))
       = Ok (EncBuffer out) /\
     decode out = Throw SyntaxError) /\
  (length (Buffer_from (JSON_stringify (JObj large_headers))) = 1018%nat /\
   fst (encode None (PObject [("id", JStr "foo")]) (Some 0%nat)
          (single large_headers)) = Throw HeadersExceed).
Proof.
  split; [split; [vm_compute; lia|] | split; by vm_compute].
  exists (block (js "{'x-tl-json':true}") "hello"). split; by vm_compute.
Qed.

(** C5: the content-length check after the payload was re-parsed.
    [encode(null, {id: 'foo'}, {'content-length': 12})] returns
    [json_with_length], whose payload portion has 12 bytes, as declared;
    [decode] rejects it with 'Content length does not match'. *)
Theorem content_length_after_reparse :
  fst (encode None (PObject [("id", JStr "foo")]) (Some 0%nat)
         (single [("content-length", JNum 12)]))
    = Ok (EncBuffer json_with_length) /\
  length (drop offset json_with_length) = 12%nat /\
  decode json_with_length = Throw ContentLengthMismatch.
Proof. repeat split; by vm_compute. Qed.

(** C8, as stated, fails because the JSON flag counts: [large_headers]
    serializes to 1018 bytes, and [encode] of them with the payload
    [{id: 'foo'}] throws its error, the text with the flag having 1035
    bytes. *)
Lemma encode_headers_counterexample :
  length (Buffer_from (JSON_stringify (JObj large_headers))) = 1018%nat /\
  length (Buffer_from (JSON_stringify
            (JObj (set_prop "x-tl-json" (JBool true) large_headers)))) = 1035%nat /\
  fst (encode None (PObject [("id", JStr "foo")]) (Some 0%nat)
         (single large_headers)) = Throw HeadersExceed.
Proof. repeat split; by vm_compute. Qed.

Lemma encode_headers_limit_witness :
  let p := PObject [("id", JStr "foo")] in
  let h := [("content-type", JStr "application/json")] in
  heap (single h) !! 0%nat = Some h /\
  (length (Buffer_from (JSON_stringify (JObj (encoded_meta p h)))) <= offset)%nat /\
  fst (encode None p (Some 0%nat) (single h))
    = Ok (EncBuffer
            (block (js "{'content-type':'application/json','x-tl-json':true}")
                   (js "{'id':'foo'}"))).
Proof.
  intros p h.
  assert (Hl : heap (single h) !! 0%nat = Some h) by reflexivity.
  assert (Hlen : (length (Buffer_from (JSON_stringify (JObj (encoded_meta p h))))
                  <= offset)%nat) by (vm_compute; lia).
  split; [assumption|]. split; [assumption|].
  destruct (encode_headers_limit p 0%nat h (single h) Hl) as [_ Hfits].
  destruct (Hfits Hlen _ eq_refl) as [Hout _]. exact Hout.
Defined.

(** The empty string is left unconverted by [encode] and reaches
    [Buffer.concat] as a string: with metadata [{}], of 2 bytes,
    [encode(null, '', {})] throws a TypeError. *)
Lemma encode_empty_string :
  length (Buffer_from (JSON_stringify (JObj []))) = 2%nat /\
  fst (encode None (PString "") (Some 0%nat) (single [])) = Throw TypeError.
Proof. split; by vm_compute. Qed.

(** C4, as stated, fails on the 2-byte input [{}]: it is not a sentinel,
    it is shorter than 1024 bytes, and [decode] returns an entry. *)
Lemma decode_short_counterexample :
  (length (Buffer_from "{}") < offset)%nat /\
  is_sentinel (Buffer_toString (Buffer_from "{}")) = false /\
  decode (Buffer_from "{}") =
    Ok (mkEntry None (VBuffer []) (Some (HObj [("x-tl-cache", JStr "hit")]))).
Proof. split; [vm_compute; lia|]. split; by vm_compute. Qed.

Lemma decode_short_witness :
  let encoded := Buffer_from (js " {'a':1}") in
  (length encoded < offset)%nat /\
  encoded <> Buffer_from "404" /\
  encoded <> Buffer_from "403" /\
  decode encoded =
    Ok (mkEntry None (VBuffer [])
          (Some (HObj [("a", JNum 1); ("x-tl-cache", JStr "hit")]))).
Proof.
  intros encoded.
  assert (Hlen : (length encoded < offset)%nat) by (vm_compute; lia).
  assert (H404 : encoded <> Buffer_from "404") by discriminate.
  assert (H403 : encoded <> Buffer_from "403") by discriminate.
  repeat (split; [assumption|]).
  apply (proj2 (decode_short encoded Hlen H404 H403) [("a", JNum 1)]);
    reflexivity.
Defined.

(** ** Runs of [setEx] *)

Lemma heap_with_object l o st : heap (with_object l o st) !! l = Some o.
Proof. apply lookup_insert_eq. Qed.

Section OrchestratorFacts.
Context `{Runtime}.
Variable w : world.

(** [setEx] on headers with an explicit expiration [e]. *)
Lemma setEx_explicit key err buffer l ttl stale st h e :
  heap st !! l = Some h ->
  explicit_expires h = Some e ->
  truthy (Some e) = true ->
  let st1 := tick (with_object l (stamped h e) st) in
  setEx w key err buffer l ttl stale st =
    match Date_time e with
    | Some t =>
        let sec := ceil_div (t - clock w (ticks st)) 1000 in
        if 0 <? sec then
          match encode err buffer (Some l) st1 with
          | (Ok val, st2) => (Ok l, log (ClientSet key (sec + 0) val) st2)
          | (Throw x, st2) => (Throw x, st2)
          end
        else (Ok l, st1)
    | None => (Ok l, st1)
    end.
Proof.
  intros Hl He Ht st1. subst st1.
  unfold setEx, tick, with_object, stamped, log.
  unfold mbind, M_bind, bind, mret, M_ret, ret, deref, update, Date_now, emit.
  simpl. rewrite Hl. simpl. fold (explicit_expires h). rewrite He, Ht.
  simpl. rewrite !lookup_insert_eq, !insert_insert_eq. simpl.
  rewrite get_set_eq.
  destruct (Date_time e) as [t|]; [|done].
  destruct (0 <? _); [|done].
  by destruct (encode err buffer (Some l) _) as [[val|x] st2].
Qed.

(** [setEx] on headers without explicit expiration. *)
Lemma setEx_default key err buffer l ttl stale st h :
  heap st !! l = Some h ->
  truthy (explicit_expires h) = false ->
  let x := toUTCString (clock w (ticks st) + ttl * 1000) in
  let st1 := tick (tick (with_object l (defaulted h x) st)) in
  setEx w key err buffer l ttl stale st =
    match Date_time (JStr x) with
    | Some t =>
        let sec := ceil_div (t - clock w (S (ticks st))) 1000 in
        if 0 <? sec then
          match encode err buffer (Some l) st1 with
          | (Ok val, st2) => (Ok l, log (ClientSet key (sec + stale) val) st2)
          | (Throw x, st2) => (Throw x, st2)
          end
        else (Ok l, st1)
    | None => (Ok l, st1)
    end.
Proof.
  intros Hl Ht x st1. subst x st1.
  unfold setEx, tick, with_object, defaulted, log.
  unfold mbind, M_bind, bind, mret, M_ret, ret, deref, update, Date_now, emit.
  simpl. rewrite Hl. simpl. fold (explicit_expires h). rewrite Ht.
  simpl. rewrite !lookup_insert_eq, !insert_insert_eq. simpl.
  rewrite get_set_eq.
  destruct (Date_time _) as [t|]; [|done].
  destruct (0 <? _); [|done].
  by destruct (encode err buffer (Some l) _) as [[val|x] st2].
Qed.

(** [encode] changes nothing but the object it was given, and there at
    most the JSON flag; it calls no collaborator. *)
Lemma encode_state err p l h st :
  heap st !! l = Some h ->
  exists h', snd (encode err p (Some l) st) = with_object l h' st /\
             (h' = h \/ h' = set_prop "x-tl-json" (JBool true) h).
Proof.
  intros Hl. destruct err as [e|].
  - exists h. split; [|by left]. rewrite with_object_same by done.
    unfold encode. destruct (errcode (Some e)); done.
  - rewrite (encode_run p l h st Hl). simpl. eexists. split; [done|].
    unfold encoded_meta. destruct (structured p); [by right | by left].
Qed.


Lemma writes_app tr tr' : writes (tr ++ tr') = writes tr ++ writes tr'.
Proof. apply omap_app. Qed.



End OrchestratorFacts.

(** ** Traces *)

Section Traces.
Context `{Runtime}.
Variable w : world.
Variable P : event -> bool.

Lemma emits_silent {A} (m : M A) :
  (forall st, trace (snd (m st)) = trace st) -> emits P m.
Proof. intros Hm st. exists []. by rewrite app_nil_r. Qed.

Lemma emits_ret {A} (a : A) : emits P (ret a).
Proof. by apply emits_silent. Qed.

Lemma emits_throw {A} x : emits P (@throw A x).
Proof. by apply emits_silent. Qed.

Lemma emits_deref l : emits P (deref l).
Proof. by apply emits_silent. Qed.

Lemma emits_update l f : emits P (update l f).
Proof. by apply emits_silent. Qed.

Lemma emits_alloc o : emits P (alloc o).
Proof. by apply emits_silent. Qed.

Lemma emits_now : emits P (Date_now w).
Proof. by apply emits_silent. Qed.

Lemma emits_emit e : P e = true -> emits P (emit e).
Proof. intros He st. exists [e]. simpl. by rewrite He. Qed.

Lemma emits_bind {A B} (m : M A) (k : A -> M B) :
  emits P m -> (forall a, emits P (k a)) -> emits P (m ≫= k).
Proof.
  intros Hm Hk st. unfold mbind, M_bind, bind.
  destruct (Hm st) as (evs & Htr & Hevs).
  destruct (m st) as [[a|x] st']; simpl in *.
  - destruct (Hk a st') as (evs' & Htr' & Hevs').
    exists (evs ++ evs'). rewrite Htr', Htr, app_assoc. split; [done|].
    by rewrite forallb_app, Hevs, Hevs'.
  - by exists evs.
Qed.

End Traces.

Ltac emits_step :=
  first
    [ apply emits_ret | apply emits_throw | apply emits_deref
    | apply emits_update | apply emits_alloc | apply emits_now
    | apply emits_emit; reflexivity
    | apply emits_bind; [|intros]
    | match goal with
      | |- emits _ (match ?x with _ => _ end) => destruct x
      end ].

Section TraceFacts.
Context `{Runtime}.
Variable w : world.

Lemma emits_encode P err p hd : emits P (encode err p hd).
Proof. unfold encode, convert. repeat emits_step. Qed.

Lemma emits_setEx key err p l ttl stale :
  emits background (setEx w key err p l ttl stale).
Proof. unfold setEx. repeat (apply emits_encode || emits_step). Qed.

(** A revalidation calls the underlying [get] once, then only the cache
    client. *)
Lemma revalidate_trace key url ttl stale st :
  exists rest,
    trace (snd (revalidate w key url ttl stale st))
      = trace st ++ SourceGet url :: rest /\
    forallb background rest = true.
Proof.
  assert (Hrest : forall k : M unit, emits background k ->
            exists rest,
              trace (snd ((emit (SourceGet url) ≫= fun _ => k) st))
                = trace st ++ SourceGet url :: rest /\
              forallb background rest = true).
  { intros k Hk. unfold mbind, M_bind, bind, emit.
    destruct (Hk (log (SourceGet url) st)) as (rest & Htr & Hrest).
    exists rest. unfold log in *. simpl in *. by rewrite Htr, <- app_assoc. }
  unfold revalidate. apply Hrest.
  unfold or_empty. repeat (apply emits_setEx || emits_step).
Qed.

End TraceFacts.

(** ** Claims about the orchestrator *)

Section OrchestratorClaims.
Context `{Runtime}.
Variable w : world.



(** C7. [isFresh] never throws.  It answers [true] exactly when the
    entry has metadata with an [x-tl-expires] whose date is later than
    the clock's reading, and [false] for an entry without metadata or
    without that field.  (A field that is present but falsy is taken as
    absent by the code; its date is NaN or the epoch, which is not later
    than a clock past the epoch.) *)
Theorem isFresh_iff (d : entry) (st : state) :
  (forall v, truthy (Some v) = false ->
             Date_time v = None \/ Date_time v = Some 0) ->
  0 <= clock w (ticks st) ->
  (fst (isFresh w d st) = Ok true <->
   exists h v t,
     data_headers d = Some h /\ hval_get "x-tl-expires" h = Some v /\
     Date_time v = Some t /\ clock w (ticks st) < t) /\
  (data_headers d = None \/
   (exists h, data_headers d = Some h /\ hval_get "x-tl-expires" h = None) ->
   fst (isFresh w d st) = Ok false) /\
  (exists b, fst (isFresh w d st) = Ok b).
Proof.
  intros Hfalsy Hnow. unfold isFresh.
  destruct (data_headers d) as [h|].
  2: { simpl. split; [|split; [done | by exists false]].
       split; [discriminate | by intros (? & ? & ? & ? & _)]. }
  destruct (hval_get "x-tl-expires" h) as [v|] eqn:Hv.
  2: { simpl. split; [|split; [done | by exists false]].
       split; [discriminate|].
       intros (h' & v & t & [= <-] & Hv' & _). congruence. }
  destruct (truthy (Some v)) eqn:Ht;
    unfold mbind, M_bind, bind, Date_now, mret, M_ret, ret; simpl.
  - split; [|split].
    + split.
      * destruct (Date_time v) as [t|] eqn:Hd; [|discriminate].
        intros [= Hlt]. apply Z.ltb_lt in Hlt. by exists h, v, t.
      * intros (h' & v' & t & [= <-] & Hv' & Hd & Hlt).
        rewrite Hv in Hv'. injection Hv' as <-. rewrite Hd.
        by apply Z.ltb_lt in Hlt as ->.
    + intros [? | (h' & [= <-] & ?)]; congruence.
    + eexists. reflexivity.
  - split; [|split].
    + split; [discriminate|].
      intros (h' & v' & t & [= <-] & Hv' & Hd & Hlt).
      rewrite Hv in Hv'. injection Hv' as <-.
      destruct (Hfalsy v Ht) as [Hn | Hz]; rewrite Hd in *; [discriminate|].
      injection Hz as ->. lia.
    + intros [? | (h' & [= <-] & ?)]; congruence.
    + by exists false.
Qed.



(** A revalidation that ends with an error that is not cached reports it
    with [client.emit('error', err)] and does nothing else. *)
Lemma revalidate_uncacheable key url ttl stale e p hd st :
  source_get w url = (Some e, p, hd) ->
  errcode (Some e) = None ->
  revalidate w key url ttl stale st =
    (Ok tt, log (ClientEmit "error" e) (log (SourceGet url) st)).
Proof.
  intros Hsrc Hcode. unfold revalidate, uncacheable. by rewrite Hsrc, Hcode.
Qed.


End OrchestratorClaims.


(** In [Node], the date of a falsy value is NaN or the epoch. *)
Lemma falsy_dates (v : json) :
  truthy (Some v) = false -> Date_time v = None \/ Date_time v = Some 0.
Proof.
  destruct v as [|[]|n|s| |]; simpl; try discriminate; try by right.
  - destruct (Z.eqb_spec n 0) as [->|]; [by right | discriminate].
  - destruct (String.eqb_spec s "") as [->|]; [by left | discriminate].
Qed.

Lemma isFresh_iff_witness :
  0 <= clock miss_json (ticks empty_state) /\
  fst (isFresh miss_json fresh_entry empty_state) = Ok true /\
  fst (isFresh miss_json fresh_entry (mkState ∅ [] (Z.to_nat 11000))) = Ok false.
Proof.
  assert (Hnow : 0 <= clock miss_json (ticks empty_state)) by (vm_compute; discriminate).
  split; [assumption|]. split.
  - apply (isFresh_iff miss_json fresh_entry empty_state falsy_dates Hnow).
    eexists _, _, _. repeat split; reflexivity.
  - reflexivity.
Defined.



(** C3: after a stale hit, the underlying [get] fails with a 500.  The
    error goes to [client.emit('error', err)]; [client.error] is not
    called.  Nothing is written and the caller is not called again. *)
Theorem revalidation_error_emitted :
  cachingGet stale_500 "TL4" 300 300 "/x" empty_state =
    (Ok tt,
     mkState ∅
       [ClientGet "TL4-/x";
        Callback None (VBuffer (Buffer_from "hello"))
          (CbDecoded
             (HObj [("x-tl-expires", JStr "Wed, 02 Nov 2016 22:33:00 GMT");
                    ("x-tl-cache", JStr "hit")]));
        SourceGet "/x";
        ClientEmit "error" server_error]
       1).
Proof. by vm_compute. Qed.


(** * Further properties *)

(** ** The codec *)

Section CodecMore.
Context `{Runtime}.

(** What [encode] returns is [null] (an error that is not cached), the
    3-character text of 404 or 403, or a Buffer of exactly 1024 bytes
    plus the payload, which is what follows the first 1024 bytes. *)
Theorem encode_shape err p l h st v :
  heap st !! l = Some h ->
  fst (encode err p (Some l) st) = Ok v ->
  (v = EncNull /\ err <> None /\ errcode err = None) \/
  (exists c, errcode err = Some c /\ (c = 404 \/ c = 403) /\
             v = EncString (Number_toString c) /\
             length (Buffer_from (Number_toString c)) = 3%nat) \/
  (exists b out, err = None /\ payload_bytes p = Some b /\
                 v = EncBuffer out /\
                 length out = (offset + length b)%nat /\
                 drop offset out = b).
Proof.
  intros Hl Hv. destruct err as [e|].
  - unfold encode in Hv. destruct (errcode (Some e)) as [c|] eqn:Hc.
    + right. left. exists c. injection Hv as <-.
      assert (Hcc : c = 404 \/ c = 403).
      { unfold errcode in Hc. destruct (statusCode e) as [[|q|q]|]; try discriminate.
        repeat (destruct q as [q|q|]; try discriminate);
          injection Hc as <-; by auto. }
      split; [done|]. split; [done|]. split; [done|].
      by destruct Hcc as [-> | ->].
    + left. injection Hv as <-. by repeat split.
  - right. right. rewrite (encode_run p l h st Hl) in Hv. simpl in Hv.
    destruct (_ <? _)%nat eqn:Hlen; [discriminate|].
    apply Nat.ltb_ge in Hlen.
    destruct (payload_bytes p) as [b|]; [|discriminate].
    injection Hv as <-. eexists b, _. repeat split; try done.
    + by apply length_block.
    + apply drop_block. unfold padding. rewrite length_replicate. lia.
Qed.

(** [encode] calls no collaborator, does not read the clock, and
    changes no object of the heap other than the metadata it is given. *)
Theorem encode_frame err p hd st :
  let st' := snd (encode err p hd st) in
  trace st' = trace st /\ ticks st' = ticks st /\
  forall l', hd <> Some l' -> is_Some (heap st !! l') ->
             heap st' !! l' = heap st !! l'.
Proof.
  unfold encode. destruct (errcode err); [done|].
  destruct err; [done|].
  assert (Hgo : forall l st0,
    let st' := snd ((convert p l ≫= fun buffer =>
                     deref l ≫= fun h =>
                     let headers := Buffer_from (JSON_stringify (JObj h)) in
                     if (offset <? length headers)%nat then throw HeadersExceed
                     else match buffer with
                          | CNullish => throw TypeError
                          | CEmptyString => throw TypeError
                          | CBuffer b =>
                              mret (EncBuffer
                                (headers
                                 ++ replicate (offset - length headers) " "%byte
                                 ++ b))
                          end) st0) in
    trace st' = trace st0 /\ ticks st' = ticks st0 /\
    forall l', l <> l' -> heap st' !! l' = heap st0 !! l').
  { intros l st0. unfold convert.
    destruct p as [| |s|b|o|a];
      unfold mbind, M_bind, bind, mret, M_ret, ret, deref, update, throw; simpl;
      try (destruct (String.eqb s "")); simpl;
      destruct (_ <? _)%nat; simpl; repeat split; try done;
      intros l' Hne; by rewrite lookup_insert_ne. }
  destruct hd as [l|]; simpl.
  - destruct (Hgo l st) as (Htr & Htk & Hheap). repeat split; try done.
    intros l' Hne _. apply Hheap. congruence.
  - unfold mbind at 1, M_bind, bind, alloc. simpl.
    set (l := fresh (dom (heap st))).
    set (st0 := mkState (<[l:=[]]> (heap st)) (trace st) (ticks st)).
    destruct (Hgo l st0) as (Htr & Htk & Hheap). repeat split; try done.
    intros l' _ Hin.
    assert (Hne : l <> l').
    { intros <-. apply (is_fresh (dom (heap st))). by apply elem_of_dom. }
    rewrite Hheap by done. unfold st0. simpl. by rewrite lookup_insert_ne.
Qed.

(** The two sentinels, as a test on the bytes. *)
Lemma sentinel_iff (encoded : bytes) :
  (length encoded =? 3)%nat && is_sentinel (Buffer_toString encoded) = true <->
  encoded = Buffer_from "404" \/ encoded = Buffer_from "403".
Proof.
  split.
  - intros [_ Hs]%andb_true_iff. by apply is_sentinel_bytes.
  - by intros [-> | ->].
Qed.

(** A decoded entry is either an error and nothing else, which happens
    for the two sentinels only, or metadata and a payload without error;
    metadata that is an object or an array then carries
    [x-tl-cache: 'hit']. *)
Theorem decode_entry_shape (encoded : bytes) (d : entry) :
  decode encoded = Ok d ->
  (exists c, (c = 404 \/ c = 403) /\
             encoded = Buffer_from (Number_toString c) /\
             d = mkEntry (Some (mkError (Some c) true "")) VUndefined None) \/
  (encoded <> Buffer_from "404" /\ encoded <> Buffer_from "403" /\
   data_err d = None /\ data_buffer d <> VUndefined /\
   exists h, data_headers d = Some h /\
             match h with
             | HPrim _ => True
             | _ => hval_get "x-tl-cache" h = Some (JStr "hit")
             end).
Proof.
  unfold decode.
  destruct ((length encoded =? 3)%nat && is_sentinel (Buffer_toString encoded))
    eqn:Hs.
  - intros [= <-]. left. apply sentinel_iff in Hs as [-> | ->].
    + exists 404. by auto.
    + exists 403. by auto.
  - intros Hd. right.
    assert (Hn : encoded <> Buffer_from "404" /\ encoded <> Buffer_from "403").
    { split; intros ->; discriminate Hs. }
    destruct Hn as [H404 H403]. split; [done|]. split; [done|].
    destruct (JSON_parse _) as [hj|]; [|discriminate].
    destruct (mark_hit hj) as [hv|] eqn:Hm; [|discriminate].
    assert (Hhit : match hv with
                   | HPrim _ => True
                   | _ => hval_get "x-tl-cache" hv = Some (JStr "hit")
                   end).
    { destruct hj; simpl in Hm; inversion Hm; subst; simpl; try done.
      apply get_set_eq. }
    assert (Hbuf : forall buf,
              (if truthy (hval_get "x-tl-json" hv)
               then match JSON_parse (Buffer_toString (drop offset encoded)) with
                    | Some j => Ok (VJson j)
                    | None => Throw SyntaxError
                    end
               else Ok (if (length encoded =? 3)%nat
                        then VJson (JStr (Buffer_toString (drop offset encoded)))
                        else VBuffer (drop offset encoded))) = Ok buf ->
              buf <> VUndefined).
    { intros buf. destruct (truthy _).
      - destruct (JSON_parse _); [|discriminate]. by intros [= <-].
      - destruct (_ =? _)%nat; by intros [= <-]. }
    simpl in Hd.
    destruct (if truthy (hval_get "x-tl-json" hv) then _ else _) as [buf|] eqn:Hb;
      [|discriminate].
    specialize (Hbuf buf eq_refl).
    destruct (truthy (hval_get "content-length" hv)).
    + destruct (value_length buf) as [n|]; [|discriminate].
      destruct (negb _); [discriminate|]. injection Hd as <-. simpl.
      split; [done|]. split; [done|]. by exists hv.
    + injection Hd as <-. simpl. split; [done|]. split; [done|]. by exists hv.
Qed.

(** [decode] throws 'Invalid cache value' exactly for the inputs that
    are not a sentinel and whose first 1024 bytes, trimmed, are not
    JSON; every other failure is another error. *)
Theorem decode_invalid_iff (encoded : bytes) :
  decode encoded = Throw InvalidCacheValue <->
  encoded <> Buffer_from "404" /\ encoded <> Buffer_from "403" /\
  JSON_parse (trim (Buffer_toString (take offset encoded))) = None.
Proof.
  unfold decode.
  destruct ((length encoded =? 3)%nat && is_sentinel (Buffer_toString encoded))
    eqn:Hs.
  - apply sentinel_iff in Hs. split; [discriminate|].
    intros (H404 & H403 & _). by destruct Hs.
  - assert (Hn : encoded <> Buffer_from "404" /\ encoded <> Buffer_from "403").
    { split; intros ->; discriminate Hs. }
    destruct Hn as [H404 H403].
    destruct (JSON_parse _) as [hj|]; [|done].
    split; [|by intros (_ & _ & ?)].
    intros Hd. exfalso.
    destruct (mark_hit hj) as [hv|x] eqn:Hm.
    + simpl in Hd.
      destruct (if truthy (hval_get "x-tl-json" hv) then _ else _) as [buf|x] eqn:Hb.
      * destruct (truthy (hval_get "content-length" hv)); [|discriminate].
        destruct (value_length buf) as [n|x] eqn:Hn.
        -- destruct (negb _); discriminate.
        -- destruct buf as [|b|[]]; simpl in Hn; try discriminate;
             injection Hn as <-; discriminate.
      * destruct (truthy _); [|discriminate].
        destruct (JSON_parse _); [discriminate|].
        injection Hb as <-. discriminate.
    + destruct hj; simpl in Hm; try discriminate. injection Hm as <-.
      discriminate.
Qed.

End CodecMore.

(** ** Runs of a lookup *)

Section LookupRuns.
Context `{Runtime}.
Variable w : world.

Lemma encode_trace err p hd st :
  trace (snd (encode err p hd st)) = trace st.
Proof.
  destruct (emits_encode (fun _ => false) err p hd st) as (evs & Htr & Hevs).
  destruct evs as [|e evs]; [by rewrite app_nil_r in Htr | done].
Qed.

(** What [encode] returns, by the kind of error it is given. *)
Lemma encode_value err p hd st v :
  fst (encode err p hd st) = Ok v ->
  match errcode err with
  | Some c => v = EncString (Number_toString c)
  | None => match err with
            | Some _ => v = EncNull
            | None => exists out, v = EncBuffer out
            end
  end.
Proof.
  unfold encode. destruct (errcode err); [by intros [= <-]|].
  destruct err; [by intros [= <-]|].
  unfold convert, or_empty.
  destruct hd, p as [| |s|b|o|a];
    unfold mbind, M_bind, bind, mret, M_ret, ret, deref, update, throw, alloc;
    simpl; try (destruct (String.eqb s "")); simpl;
    destruct (_ <? _)%nat; simpl; try discriminate; intros [= <-]; by eexists.
Qed.

Lemma encode_throw err p hd st x :
  fst (encode err p hd st) = Throw x ->
  err = None /\ (x = HeadersExceed \/ x = TypeError).
Proof.
  unfold encode. destruct (errcode err); [discriminate|].
  destruct err; [discriminate|]. split; [done|]. revert H0.
  unfold convert, or_empty.
  destruct hd, p as [| |s|b|o|a];
    unfold mbind, M_bind, bind, mret, M_ret, ret, deref, update, throw, alloc;
    simpl; try (destruct (String.eqb s "")); simpl;
    destruct (_ <? _)%nat; simpl; try discriminate; intros [= <-]; by auto.
Qed.

Lemma rewritten_explicit h e x :
  explicit_expires h = Some e -> truthy (Some e) = true ->
  rewritten h x = stamped h e.
Proof. intros He Ht. unfold rewritten. by rewrite He, Ht. Qed.

Lemma rewritten_default h x :
  truthy (explicit_expires h) = false -> rewritten h x = defaulted h x.
Proof.
  intros Ht. unfold rewritten.
  destruct (explicit_expires h); [by rewrite Ht | done].
Qed.

(** One [setEx] on an object of the heap: it ends with the location it was given and no call, or
    with that location and one [client.set] under the key, with a TTL
    [sec + pad] where [sec] is positive and [pad] is [0] or [stale], or
    with what [encode] throws and no call. *)
Lemma setEx_events key err p l ttl stale st h :
  heap st !! l = Some h ->
  let r := setEx w key err p l ttl stale st in
  (fst r = Ok l /\ trace (snd r) = trace st) \/
  (exists sec pad val st1,
     0 < sec /\ (pad = 0 \/ pad = stale) /\
     heap st1 !! l
       = Some (rewritten h (toUTCString (clock w (ticks st) + ttl * 1000))) /\
     fst (encode err p (Some l) st1) = Ok val /\
     fst r = Ok l /\
     heap (snd r) = heap (snd (encode err p (Some l) st1)) /\
     trace (snd r) = trace st ++ [ClientSet key (sec + pad) val]) \/
  (exists x st1,
     heap st1 !! l
       = Some (rewritten h (toUTCString (clock w (ticks st) + ttl * 1000))) /\
     fst (encode err p (Some l) st1) = Throw x /\
     fst r = Throw x /\ trace (snd r) = trace st).
Proof.
  intros Hl r. subst r.
  assert (Hcases : (exists e, explicit_expires h = Some e /\ truthy (Some e) = true)
                   \/ truthy (explicit_expires h) = false).
  { destruct (explicit_expires h) as [e|]; [|by right].
    destruct (truthy (Some e)) eqn:Ht; [left; by exists e | by right]. }
  destruct Hcases as [(e & He & Ht) | Ht].
  - pose proof (rewritten_explicit h e
        (toUTCString (clock w (ticks st) + ttl * 1000)) He Ht) as Hrw.
    rewrite (setEx_explicit w key err p l ttl stale st h e) by done.
    destruct (Date_time e) as [t|]; [|left; by simpl].
    simpl. destruct (0 <? _) eqn:Hsec; [|left; by simpl].
    apply Z.ltb_lt in Hsec.
    match goal with
    | |- context [encode err p (Some l) ?s] =>
        pose proof (encode_trace err p (Some l) s) as Htr;
        destruct (encode err p (Some l) s) as [[val|x] st2] eqn:Hrun
    end; simpl in *.
    + right. left. eexists _, 0, val, _. rewrite Hrun. simpl.
      repeat split; try done; [by left | | by rewrite Htr].
      rewrite Hrw. apply heap_with_object.
    + right. right. eexists x, _. rewrite Hrun. simpl.
      split; [|by rewrite Htr]. rewrite Hrw. apply heap_with_object.
  - pose proof (rewritten_default h
        (toUTCString (clock w (ticks st) + ttl * 1000)) Ht) as Hrw.
    rewrite (setEx_default w key err p l ttl stale st h) by done.
    destruct (Date_time _) as [t|]; [|left; by simpl].
    simpl. destruct (0 <? _) eqn:Hsec; [|left; by simpl].
    apply Z.ltb_lt in Hsec.
    match goal with
    | |- context [encode err p (Some l) ?s] =>
        pose proof (encode_trace err p (Some l) s) as Htr;
        destruct (encode err p (Some l) s) as [[val|x] st2] eqn:Hrun
    end; simpl in *.
    + right. left. eexists _, stale, val, _. rewrite Hrun. simpl.
      repeat split; try done; [by right | | by rewrite Htr].
      rewrite Hrw. apply heap_with_object.
    + right. right. eexists x, _. rewrite Hrun. simpl.
      split; [|by rewrite Htr]. rewrite Hrw. apply heap_with_object.
Qed.

(** [isFresh] as a function of the clock's reading. *)
Lemma isFresh_run d st :
  isFresh w d st =
    (Ok (fresh_at d (clock w (ticks st))),
     if reads_clock d then tick st else st).
Proof.
  unfold isFresh, fresh_at, reads_clock.
  destruct (data_headers d) as [h|]; [|done].
  destruct (hval_get "x-tl-expires" h) as [v|]; [|done].
  by destruct (truthy (Some v)).
Qed.

Lemma or_empty_run hd st :
  allocated hd st ->
  exists l h st',
    or_empty hd st = (Ok l, st') /\ heap st' !! l = Some h /\
    trace st' = trace st /\ ticks st' = ticks st /\
    (forall l', hd = Some l' -> l = l' /\ st' = st).
Proof.
  destruct hd as [l|]; simpl.
  - intros [h Hh]. exists l, h, st. repeat split; try done; congruence.
  - intros _. eexists _, [], _. unfold alloc. split; [done|]. simpl.
    rewrite lookup_insert_eq. by repeat split.
Qed.

(** The write path of a result that is cached: [headers || {}], then
    [setEx].  It makes at most one call, a [client.set], and fails only
    if [encode] does, which needs a result without error. *)
Lemma write_path key err p hd ttl stale st :
  allocated hd st ->
  uncacheable err = false ->
  exists l h st0,
    or_empty hd st = (Ok l, st0) /\ heap st0 !! l = Some h /\
    trace st0 = trace st /\
    (forall l', hd = Some l' -> l = l') /\
    let r := setEx w key err p l ttl stale st0 in
    ((fst r = Ok l /\
      (trace (snd r) = trace st \/
       exists e, store_write key stale err e /\
                 trace (snd r) = trace st ++ [e])) \/
     (exists x, fst r = Throw x /\ err = None /\
                (x = HeadersExceed \/ x = TypeError) /\
                trace (snd r) = trace st)).
Proof.
  intros Hhd Hun.
  destruct (or_empty_run hd st Hhd) as (l & h & st0 & Hrun & Hl & Htr & _ & Hsame).
  exists l, h, st0. repeat split; try done.
  { intros l' Hl'. by destruct (Hsame l' Hl'). }
  destruct (setEx_events key err p l ttl stale st0 h Hl)
    as [[Hok Ht] | [(sec & pad & val & st1 & Hsec & Hpad & _ & Henc & Hok & _ & Ht)
                   | (x & st1 & _ & Henc & Hthrow & Ht)]].
  - left. split; [done|]. left. by rewrite Ht.
  - left. split; [done|]. right. eexists. split; [|by rewrite Ht, Htr].
    exists sec, pad, val. repeat split; try done.
    apply encode_value in Henc. unfold stored.
    destruct (errcode err) as [c|] eqn:Hc; [done|].
    destruct err as [e|]; [|done].
    unfold uncacheable in Hun. by rewrite Hc in Hun.
  - right. exists x. apply encode_throw in Henc as [-> Hx].
    repeat split; try done. by rewrite Ht.
Qed.

End LookupRuns.

(** ** The paths of a lookup *)

Section LookupPaths.
Context `{Runtime}.
Variable w : world.

Lemma stored_not_null err val : stored err val -> val <> EncNull.
Proof.
  unfold stored. destruct (errcode err); [by intros -> | by intros [out ->]].
Qed.

Lemma allocated_same hd st st' : heap st' = heap st -> allocated hd st -> allocated hd st'.
Proof. intros Hh. destruct hd; simpl; [by rewrite Hh | done]. Qed.

(** The four ways a lookup continues after [client.get] has answered. *)
Lemma cachingGet_store_error ns ttl stale url e enc st :
  client_get w (ns +:+ "-" +:+ url) = (Some e, enc) ->
  cachingGet w ns ttl stale url st =
    passthrough w url
      (log (ClientError (Err e) (ns +:+ "-" +:+ url))
         (log (ClientGet (ns +:+ "-" +:+ url)) st)).
Proof. intros Hget. unfold cachingGet. by rewrite Hget. Qed.

Lemma cachingGet_miss ns ttl stale url st :
  client_get w (ns +:+ "-" +:+ url) = (None, None) ->
  cachingGet w ns ttl stale url st =
    fetch w (ns +:+ "-" +:+ url) url ttl stale
      (log (ClientGet (ns +:+ "-" +:+ url)) st).
Proof. intros Hget. unfold cachingGet. by rewrite Hget. Qed.

Lemma cachingGet_corrupt ns ttl stale url enc x st :
  client_get w (ns +:+ "-" +:+ url) = (None, Some enc) ->
  decode enc = Throw x ->
  cachingGet w ns ttl stale url st =
    fetch w (ns +:+ "-" +:+ url) url ttl stale
      (log (ClientError (Exn x) (ns +:+ "-" +:+ url))
         (log (ClientGet (ns +:+ "-" +:+ url)) st)).
Proof.
  intros Hget Hd. unfold cachingGet. rewrite Hget.
  unfold try_catch, lift.
  unfold mbind at 1 2 3 4 5, M_bind, bind, emit, mret, M_ret, ret.
  by rewrite Hd.
Qed.

Lemma cachingGet_hit ns ttl stale url enc d st :
  client_get w (ns +:+ "-" +:+ url) = (None, Some enc) ->
  decode enc = Ok d ->
  let st1 := log (Callback (data_err d) (data_buffer d)
                    (cbheaders_of (data_headers d)))
               (log (ClientGet (ns +:+ "-" +:+ url)) st) in
  let st2 := if reads_clock d then tick st1 else st1 in
  cachingGet w ns ttl stale url st =
    if fresh_at d (clock w (ticks st)) then (Ok tt, st2)
    else revalidate w (ns +:+ "-" +:+ url) url ttl stale st2.
Proof.
  intros Hget Hd st1 st2. unfold cachingGet. rewrite Hget.
  unfold try_catch, lift.
  unfold mbind at 1 2 3 4 5 6, M_bind, bind, emit, mret, M_ret, ret.
  rewrite Hd. simpl. fold st1. rewrite (isFresh_run w d st1). fold st2.
  by destruct (fresh_at d _).
Qed.

(** What the underlying [get] and its callback add to the trace after a
    miss. *)
Lemma fetch_shape key url ttl stale err p hd st :
  source_get w url = (err, p, hd) ->
  allocated hd st ->
  let r := fetch w key url ttl stale st in
  exists evs,
    trace (snd r) = trace st ++ SourceGet url :: evs /\
    ((uncacheable err = true /\ fst r = Ok tt /\ heap (snd r) = heap st /\
      evs = [Callback err VUndefined CbUndefined]) \/
     (uncacheable err = false /\
      exists l, (forall l', hd = Some l' -> l = l') /\
        ((fst r = Ok tt /\
          (evs = [Callback err (payload_value p) (CbRef l)] \/
           exists e, store_write key stale err e /\
                     evs = [e; Callback err (payload_value p) (CbRef l)])) \/
         (exists x, fst r = Throw x /\ err = None /\
                    (x = HeadersExceed \/ x = TypeError) /\ evs = [])))).
Proof.
  intros Hsrc Hhd r. subst r. unfold fetch. rewrite Hsrc.
  destruct (uncacheable err) eqn:Hun.
  - unfold mbind, M_bind, bind, emit. simpl. rewrite <- app_assoc. simpl.
    eexists. split; [done|]. left. by repeat split.
  - unfold mbind, M_bind, bind, emit. simpl.
    set (st0 := mkState (heap st) (trace st ++ [SourceGet url]) (ticks st)).
    assert (Hhd0 : allocated hd st0) by (by apply (allocated_same hd st)).
    destruct (write_path w key err p hd ttl stale st0 Hhd0 Hun)
      as (l & h & st1 & Hor & Hl & Htr & Hsame & Hset).
    rewrite Hor.
    destruct (setEx w key err p l ttl stale st1) as [[l'|x] st2]; simpl in *.
    + destruct Hset as [[[= ->] Hset] | (x & [=] & _)].
      destruct Hset as [Ht | (e & He & Ht)]; rewrite Ht; simpl.
      * eexists. split; [by rewrite <- !app_assoc; simpl|].
        right. split; [done|]. exists l. split; [done|]. left. by auto.
      * eexists. split; [by rewrite <- !app_assoc; simpl|].
        right. split; [done|]. exists l. split; [done|]. left.
        split; [done|]. right. by exists e.
    + destruct Hset as [[[=] _] | (y & [= <-] & -> & Hx & Ht)].
      rewrite Ht. simpl. exists []. split; [done|].
      right. split; [done|]. exists l. split; [done|]. right. by exists x.
Qed.

(** What the underlying [get] and its callback add to the trace after a
    stale hit. *)
Lemma revalidate_shape key url ttl stale err p hd st :
  source_get w url = (err, p, hd) ->
  allocated hd st ->
  let r := revalidate w key url ttl stale st in
  exists evs,
    trace (snd r) = trace st ++ SourceGet url :: evs /\
    ((exists e, err = Some e /\ errcode err = None /\ fst r = Ok tt /\
                heap (snd r) = heap st /\ evs = [ClientEmit "error" e]) \/
     (uncacheable err = false /\
      ((fst r = Ok tt /\
        (evs = [] \/ exists e, store_write key stale err e /\ evs = [e])) \/
       (exists x, fst r = Throw x /\ err = None /\
                  (x = HeadersExceed \/ x = TypeError) /\ evs = [])))).
Proof.
  intros Hsrc Hhd r. subst r. unfold revalidate. rewrite Hsrc.
  destruct (uncacheable err) eqn:Hun.
  - destruct err as [e|]; [|discriminate].
    unfold mbind, M_bind, bind, emit. simpl. rewrite <- app_assoc. simpl.
    eexists. split; [done|]. left. exists e.
    split; [done|]. split; [|done].
    unfold uncacheable in Hun. change (errcode (Some e) = None).
    by destruct (errcode (Some e)).
  - unfold mbind, M_bind, bind, emit. simpl.
    set (st0 := mkState (heap st) (trace st ++ [SourceGet url]) (ticks st)).
    assert (Hhd0 : allocated hd st0) by (by apply (allocated_same hd st)).
    destruct (write_path w key err p hd ttl stale st0 Hhd0 Hun)
      as (l & h & st1 & Hor & Hl & Htr & Hsame & Hset).
    rewrite Hor.
    destruct (setEx w key err p l ttl stale st1) as [[l'|x] st2]; simpl in *.
    + destruct Hset as [[[= ->] Hset] | (x & [=] & _)].
      destruct Hset as [Ht | (e & He & Ht)]; rewrite Ht; simpl.
      * exists []. split; [done|]. right. split; [done|]. left. by auto.
      * eexists. split; [by rewrite <- !app_assoc; simpl|].
        right. split; [done|]. left. split; [done|]. right. by exists e.
    + destruct Hset as [[[=] _] | (y & [= <-] & -> & Hx & Ht)].
      rewrite Ht. simpl. exists []. split; [done|].
      right. split; [done|]. right. by exists x.
Qed.

End LookupPaths.

(** ** A whole lookup *)

Section LookupShape.
Context `{Runtime}.
Variable w : world.

(** The fields that [setEx] leaves alone. *)
Lemma rewritten_other k h x :
  k <> "Expires" -> k <> "expires" -> k <> "x-tl-expires" ->
  get_prop k (rewritten h x) = get_prop k h.
Proof.
  intros H1 H2 H3. unfold rewritten, stamped, defaulted.
  destruct (explicit_expires h) as [e|]; [destruct (truthy (Some e))|];
    repeat first [ rewrite get_set_ne by done | rewrite get_delete_ne by done ];
    done.
Qed.

Lemma reserved_false k :
  reserved k = false ->
  k <> "Expires" /\ k <> "expires" /\ k <> "x-tl-expires" /\ k <> "x-tl-json".
Proof.
  unfold reserved. intros Hk.
  repeat split; intros ->; discriminate Hk.
Qed.

(** The heap after [setEx]: only the object it was given has changed. *)
Lemma setEx_heap key err p l ttl stale st h :
  heap st !! l = Some h ->
  let x := toUTCString (clock w (ticks st) + ttl * 1000) in
  exists h',
    heap (snd (setEx w key err p l ttl stale st)) = <[l := h']> (heap st) /\
    (h' = rewritten h x \/
     h' = set_prop "x-tl-json" (JBool true) (rewritten h x)).
Proof.
  intros Hl x.
  assert (Hcases : (exists e, explicit_expires h = Some e /\ truthy (Some e) = true)
                   \/ truthy (explicit_expires h) = false).
  { destruct (explicit_expires h) as [e|]; [|by right].
    destruct (truthy (Some e)) eqn:Ht; [left; by exists e | by right]. }
  assert (Hgo : forall o st1,
            heap st1 = <[l := o]> (heap st) ->
            forall (k : encoded -> M unit),
              (forall v s, heap (snd (k v s)) = heap s) ->
              forall sec : option Z,
              exists h',
                heap (snd (match sec with
                           | Some s =>
                               if 0 <? s then
                                 match encode err p (Some l) st1 with
                                 | (Ok val, st2) => (Ok l, snd (k val st2))
                                 | (Throw y, st2) => (Throw y, st2)
                                 end
                               else (Ok l, st1)
                           | None => (Ok l, st1)
                           end)) = <[l := h']> (heap st) /\
                (h' = o \/ h' = set_prop "x-tl-json" (JBool true) o)).
  { intros o st1 Hst1 k Hk sec.
    assert (Hl1 : heap st1 !! l = Some o) by (rewrite Hst1; apply lookup_insert_eq).
    destruct (encode_state err p l o st1 Hl1) as (h' & Hst & Hh').
    assert (Hskip : exists h', heap st1 = <[l := h']> (heap st) /\
              (h' = o \/ h' = set_prop "x-tl-json" (JBool true) o))
      by (exists o; by auto).
    destruct sec as [s|]; [|done]. destruct (0 <? s); [|done].
    destruct (encode err p (Some l) st1) as [[val|y] st2]; simpl in *; subst st2.
    - exists h'. split; [|done]. rewrite Hk. simpl. rewrite Hst1.
      apply insert_insert_eq.
    - exists h'. split; [|done]. simpl. rewrite Hst1. apply insert_insert_eq. }
  destruct Hcases as [(e & He & Ht) | Ht].
  - rewrite (setEx_explicit w key err p l ttl stale st h e) by done.
    rewrite (rewritten_explicit h e x He Ht).
    destruct (Hgo (stamped h e) (tick (with_object l (stamped h e) st)) eq_refl
                (fun val => emit (ClientSet key
                   (match Date_time e with
                    | Some t => ceil_div (t - clock w (ticks st)) 1000
                    | None => 0
                    end + 0) val))
                (fun _ _ => eq_refl)
                ((fun t => ceil_div (t - clock w (ticks st)) 1000) <$> Date_time e))
      as (h' & Hh & Hor).
    exists h'. split; [|done]. rewrite <- Hh.
    destruct (Date_time e) as [t|]; [|done]. simpl.
    destruct (0 <? _); [|done].
    by destruct (encode err p (Some l) _) as [[val|y] st2].
  - rewrite (setEx_default w key err p l ttl stale st h) by done.
    rewrite (rewritten_default h x Ht). fold x.
    destruct (Hgo (defaulted h x) (tick (tick (with_object l (defaulted h x) st)))
                eq_refl
                (fun val => emit (ClientSet key
                   (match Date_time (JStr x) with
                    | Some t => ceil_div (t - clock w (S (ticks st))) 1000
                    | None => 0
                    end + stale) val))
                (fun _ _ => eq_refl)
                ((fun t => ceil_div (t - clock w (S (ticks st))) 1000)
                   <$> Date_time (JStr x)))
      as (h' & Hh & Hor).
    exists h'. split; [|done]. rewrite <- Hh.
    destruct (Date_time (JStr x)) as [t|]; [|done]. simpl.
    destruct (0 <? _); [|done].
    by destruct (encode err p (Some l) _) as [[val|y] st2].
Qed.

(** What [decode] makes of a header block and a payload laid out by
    [encode] for the metadata [h]. *)
Lemma decode_written p h b :
  let meta := encoded_meta p h in
  let text := JSON_stringify (JObj meta) in
  let cl := get_prop "content-length" h in
  payload_bytes p = Some b ->
  (length (Buffer_from text) <= offset)%nat ->
  JSON_parse text = Some (JObj meta) ->
  trim text = text ->
  (forall j, structured p = Some j ->
     JSON_parse (JSON_stringify j) = Some j /\ truthy cl = false) ->
  (structured p = None ->
     truthy (get_prop "x-tl-json" h) = false /\
     (truthy cl = false \/
      loose_eq cl (Some (JNum (Z.of_nat (length b)))) = true)) ->
  decode (Buffer_from text ++ padding (Buffer_from text) ++ b) =
    Ok (mkEntry None (decoded p)
          (Some (HObj (set_prop "x-tl-cache" (JStr "hit") meta)))).
Proof.
  intros meta text cl Hb Hlen Hparse Htrim Hstruct Hbytes.
  rewrite (decode_block _ _ meta Hlen) by (by rewrite toString_from, Htrim).
  destruct (structured p) as [j|] eqn:Hj.
  - destruct (Hstruct j eq_refl) as [Hpj Hcl].
    assert (Hbj : b = Buffer_from (JSON_stringify j) /\ decoded p = VJson j).
    { destruct p; simpl in *; inversion Hj; inversion Hb; by subst. }
    destruct Hbj as [-> ->].
    assert (Hflag : get_prop "x-tl-json" meta = Some (JBool true)).
    { subst meta. unfold encoded_meta. rewrite Hj. apply get_set_eq. }
    assert (Hcl' : get_prop "content-length" meta = cl).
    { subst meta. unfold encoded_meta. rewrite Hj. by apply get_set_ne. }
    simpl. rewrite Hflag, Hcl', toString_from, Hpj. simpl. by rewrite Hcl.
  - destruct (Hbytes eq_refl) as [Hflag Hcl].
    assert (Hmeta : meta = h).
    { subst meta. unfold encoded_meta. by rewrite Hj. }
    assert (Hd : decoded p = VBuffer b).
    { destruct p; simpl in *; try discriminate; try by inversion Hb.
      destruct (String.eqb s ""); by inversion Hb. }
    simpl. rewrite Hmeta, Hflag, Hd. fold cl. simpl.
    destruct Hcl as [-> | Heq]; [done|].
    destruct (truthy cl); [|done]. by rewrite Heq.
Qed.

(** A hit starts with the caller's callback on the decoded entry. *)
Lemma hit_trace ns ttl stale url enc d st :
  client_get w (ns +:+ "-" +:+ url) = (None, Some enc) ->
  decode enc = Ok d ->
  exists rest,
    trace (snd (cachingGet w ns ttl stale url st)) =
      trace st
      ++ [ClientGet (ns +:+ "-" +:+ url);
          Callback (data_err d) (data_buffer d) (cbheaders_of (data_headers d))]
      ++ rest.
Proof.
  intros Hget Hd. rewrite (cachingGet_hit w ns ttl stale url enc d st Hget Hd).
  destruct (fresh_at d _).
  - exists []. simpl. destruct (reads_clock d); simpl; by rewrite <- app_assoc.
  - match goal with
    | |- context [revalidate w ?k url ttl stale ?s] =>
        destruct (revalidate_trace w k url ttl stale s) as (rest & Htr & _)
    end.
    exists (SourceGet url :: rest). rewrite Htr.
    destruct (reads_clock d); simpl; by rewrite <- !app_assoc.
Qed.

(** The events of one lookup, path by path: a store error, a hit, a miss
    (after a report to [client.error] when the stored value does not
    decode). *)
Lemma lookup_shape ns ttl stale url err p hd st :
  source_get w url = (err, p, hd) ->
  allocated hd st ->
  let key := ns +:+ "-" +:+ url in
  let r := cachingGet w ns ttl stale url st in
  exists evs,
    trace (snd r) = trace st ++ ClientGet key :: evs /\
    ((exists x a b c,
        evs = [ClientError x key; SourceGet url; Callback a b c] /\
        fst r = Ok tt) \/
     (exists a b c tail,
        evs = Callback a b c :: tail /\
        (tail = [] \/
         exists bg, tail = SourceGet url :: bg /\
           (bg = [] \/ (exists e, bg = [ClientEmit "error" e]) \/
            exists e, store_write key stale err e /\ bg = [e]))) \/
     (exists rep tail,
        (rep = [] \/ exists x, rep = [ClientError x key]) /\
        evs = rep ++ SourceGet url :: tail /\
        ((fst r = Ok tt /\
          exists a b c,
            tail = [Callback a b c] \/
            exists e, store_write key stale err e /\
                      tail = [e; Callback a b c]) \/
         ((exists x, fst r = Throw x) /\ tail = [])))).
Proof.
  intros Hsrc Hhd key r. subst r.
  assert (Hfetch : forall st0 rep,
            heap st0 = heap st ->
            trace st0 = trace st ++ ClientGet key :: rep ->
            (rep = [] \/ exists x, rep = [ClientError x key]) ->
            let r := fetch w key url ttl stale st0 in
            exists evs,
              trace (snd r) = trace st ++ ClientGet key :: evs /\
              exists rep tail,
                (rep = [] \/ exists x, rep = [ClientError x key]) /\
                evs = rep ++ SourceGet url :: tail /\
                ((fst r = Ok tt /\
                  exists a b c,
                    tail = [Callback a b c] \/
                    exists e, store_write key stale err e /\
                              tail = [e; Callback a b c]) \/
                 ((exists x, fst r = Throw x) /\ tail = []))).
  { intros st0 rep Hh Ht Hrep r.
    destruct (fetch_shape w key url ttl stale err p hd st0 Hsrc
                (allocated_same hd st st0 Hh Hhd)) as (evs & Htr & Hcases).
    fold r in Htr, Hcases.
    exists (rep ++ SourceGet url :: evs). split.
    { rewrite Htr, Ht, <- app_assoc. done. }
    exists rep, evs. split; [done|]. split; [done|].
    destruct Hcases as [(_ & Hok & _ & ->) | (_ & l & _ & Hcases)].
    - left. split; [done|]. eexists _, _, _. by left.
    - destruct Hcases as [[Hok [-> | (e & He & ->)]] | (x & Hx & _ & _ & ->)].
      + left. split; [done|]. eexists _, _, _. by left.
      + left. split; [done|]. eexists _, _, _. right. by exists e.
      + right. split; [by exists x | done]. }
  destruct (client_get w key) as [[e|] enc] eqn:Hget.
  - rewrite (cachingGet_store_error w ns ttl stale url e enc st Hget).
    unfold passthrough. rewrite Hsrc.
    unfold mbind, M_bind, bind, emit, log. simpl.
    eexists. split; [by rewrite <- !app_assoc; simpl|].
    left. by eexists _, _, _, _.
  - destruct enc as [enc|].
    + destruct (decode enc) as [d|x] eqn:Hd.
      * rewrite (cachingGet_hit w ns ttl stale url enc d st Hget Hd).
        fold key.
        set (st1 := log _ (log (ClientGet key) st)).
        set (st2 := if reads_clock d then tick st1 else st1).
        assert (Hh2 : heap st2 = heap st) by (subst st2; by destruct (reads_clock d)).
        assert (Ht2 : trace st2 = trace st ++ [ClientGet key;
                  Callback (data_err d) (data_buffer d)
                    (cbheaders_of (data_headers d))]).
        { subst st2 st1. destruct (reads_clock d); simpl; by rewrite <- app_assoc. }
        destruct (fresh_at d _).
        -- eexists. split; [exact Ht2|]. right. left.
           eexists _, _, _, []. by auto.
        -- destruct (revalidate_shape w key url ttl stale err p hd st2 Hsrc
                       (allocated_same hd st st2 Hh2 Hhd)) as (evs & Htr & Hcases).
           eexists. split; [by rewrite Htr, Ht2, <- app_assoc; simpl|].
           right. left. eexists _, _, _, _. split; [done|]. right.
           exists evs. split; [done|].
           destruct Hcases as [(e & _ & _ & _ & _ & ->) | (_ & Hcases)].
           ++ right. left. by exists e.
           ++ destruct Hcases as [[_ [-> | (e & He & ->)]] | (y & _ & _ & _ & ->)].
              ** by left.
              ** right. right. by exists e.
              ** by left.
      * rewrite (cachingGet_corrupt w ns ttl stale url enc x st Hget Hd).
        fold key.
        destruct (Hfetch (log (ClientError (Exn x) key) (log (ClientGet key) st))
                    [ClientError (Exn x) key]) as (evs & Htr & Hcases).
        { done. }
        { simpl. by rewrite <- app_assoc. }
        { right. by exists (Exn x). }
        exists evs. split; [done|]. by right; right.
    + rewrite (cachingGet_miss w ns ttl stale url st Hget). fold key.
      destruct (Hfetch (log (ClientGet key) st) []) as (evs & Htr & Hcases);
        [done | done | by left |].
      exists evs. split; [done|]. by right; right.
Qed.

End LookupShape.

(** ** Independence of the trace *)

Section Oblivious.
Context `{Runtime}.
Variable w : world.

Lemma oblivious_silent {A} (m : M A) r f g :
  (forall st, m st = (r st, mkState (f st) (trace st) (g st))) ->
  (forall hp tk t t', r (mkState hp t tk) = r (mkState hp t' tk) /\
                      f (mkState hp t tk) = f (mkState hp t' tk) /\
                      g (mkState hp t tk) = g (mkState hp t' tk)) ->
  oblivious m.
Proof.
  intros Hm Hind hp tk.
  exists (r (mkState hp [] tk)), (f (mkState hp [] tk)), (g (mkState hp [] tk)), [].
  intros t. rewrite Hm, app_nil_r. simpl.
  destruct (Hind hp tk t []) as (-> & -> & ->). done.
Qed.

Lemma oblivious_ret {A} (a : A) : oblivious (ret a).
Proof.
  apply (oblivious_silent _ (fun _ => Ok a) heap ticks); [by intros []|done].
Qed.

Lemma oblivious_throw {A} x : oblivious (@throw A x).
Proof.
  apply (oblivious_silent _ (fun _ => Throw x) heap ticks); [by intros []|done].
Qed.

Lemma oblivious_deref l : oblivious (deref l).
Proof.
  apply (oblivious_silent _ (fun st => Ok (default [] (heap st !! l))) heap ticks);
    [by intros []|done].
Qed.

Lemma oblivious_update l f : oblivious (update l f).
Proof.
  apply (oblivious_silent _ (fun _ => Ok tt)
           (fun st => <[l := f (default [] (heap st !! l))]> (heap st)) ticks);
    done.
Qed.

Lemma oblivious_alloc o : oblivious (alloc o).
Proof.
  apply (oblivious_silent _ (fun st => Ok (fresh (dom (heap st))))
           (fun st => <[fresh (dom (heap st)) := o]> (heap st)) ticks);
    done.
Qed.

Lemma oblivious_now : oblivious (Date_now w).
Proof.
  apply (oblivious_silent _ (fun st => Ok (clock w (ticks st))) heap
           (fun st => S (ticks st)));
    done.
Qed.

Lemma oblivious_emit e : oblivious (emit e).
Proof. intros hp tk. by exists (Ok tt), hp, tk, [e]. Qed.

Lemma oblivious_bind {A B} (m : M A) (k : A -> M B) :
  oblivious m -> (forall a, oblivious (k a)) -> oblivious (m ≫= k).
Proof.
  intros Hm Hk hp tk. unfold mbind, M_bind, bind.
  destruct (Hm hp tk) as ([a|x] & hp' & tk' & evs & Hrun).
  - destruct (Hk a hp' tk') as (r & hp'' & tk'' & evs' & Hrun').
    exists r, hp'', tk'', (evs ++ evs'). intros t.
    by rewrite Hrun, Hrun', app_assoc.
  - exists (Throw x), hp', tk', evs. intros t. by rewrite Hrun.
Qed.

End Oblivious.

Ltac oblivious_step :=
  first
    [ apply oblivious_ret | apply oblivious_throw | apply oblivious_deref
    | apply oblivious_update | apply oblivious_alloc | apply oblivious_now
    | apply oblivious_emit
    | apply oblivious_bind; [|intros]
    | match goal with
      | |- oblivious (match ?x with _ => _ end) => destruct x
      end ].

Section ObliviousFacts.
Context `{Runtime}.
Variable w : world.

Lemma oblivious_encode err p hd : oblivious (encode err p hd).
Proof. unfold encode, convert. repeat oblivious_step. Qed.

Lemma oblivious_setEx key err p l ttl stale :
  oblivious (setEx w key err p l ttl stale).
Proof. unfold setEx. repeat (apply oblivious_encode || oblivious_step). Qed.

Lemma oblivious_fetch key url ttl stale :
  oblivious (fetch w key url ttl stale).
Proof.
  unfold fetch, or_empty. repeat (apply oblivious_setEx || oblivious_step).
Qed.

Lemma oblivious_revalidate key url ttl stale :
  oblivious (revalidate w key url ttl stale).
Proof.
  unfold revalidate, or_empty. repeat (apply oblivious_setEx || oblivious_step).
Qed.

End ObliviousFacts.

(** ** Properties of [isFresh], [setEx] and the lookup *)

Section LookupProperties.
Context `{Runtime}.
Variable w : world.

(** Freshness only decays: an entry that [isFresh] finds fresh at one
    reading of the clock is found fresh at every reading that is not
    later. *)
Theorem isFresh_monotone (d : entry) (st st' : state) :
  clock w (ticks st') <= clock w (ticks st) ->
  fst (isFresh w d st) = Ok true ->
  fst (isFresh w d st') = Ok true.
Proof.
  intros Hle. rewrite !isFresh_run. simpl. unfold fresh_at.
  destruct (data_headers d) as [h|]; [|done].
  destruct (hval_get "x-tl-expires" h) as [v|]; [|done].
  destruct (truthy (Some v)); [|done].
  destruct (Date_time v) as [t|]; [|done]. simpl.
  intros [= Hlt]. apply Z.ltb_lt in Hlt.
  f_equal. apply Z.ltb_lt. lia.
Qed.

(** [setEx] changes the headers object it is given and nothing else in
    the heap, and in that object only [Expires], [expires],
    [x-tl-expires] and [x-tl-json]: every other field is as the caller
    set it. *)
Theorem setEx_keeps_fields key err p l ttl stale st h :
  heap st !! l = Some h ->
  let st' := snd (setEx w key err p l ttl stale st) in
  (exists h', heap st' !! l = Some h' /\
     forall k, reserved k = false -> get_prop k h' = get_prop k h) /\
  (forall l', l' <> l -> heap st' !! l' = heap st !! l').
Proof.
  intros Hl st'. subst st'.
  destruct (setEx_heap w key err p l ttl stale st h Hl) as (h' & Hh & Hor).
  rewrite Hh. split.
  - exists h'. split; [apply lookup_insert_eq|].
    intros k Hk. apply reserved_false in Hk as (H1 & H2 & H3 & H4).
    destruct Hor as [-> | ->].
    + by apply rewritten_other.
    + rewrite get_set_ne by done. by apply rewritten_other.
  - intros l' Hne. by apply lookup_insert_ne.
Qed.

(** When [client.get] fails, the error is reported to [client.error]
    with the key, and the lookup goes to the underlying [get] with the
    caller's own callback: its result is handed over as it is, error
    included, nothing is written to the store and no headers object is
    touched. *)
Theorem store_error_passthrough ns ttl stale url e enc err p hd st :
  client_get w (ns +:+ "-" +:+ url) = (Some e, enc) ->
  source_get w url = (err, p, hd) ->
  cachingGet w ns ttl stale url st =
    (Ok tt,
     mkState (heap st)
       (trace st
        ++ [ClientGet (ns +:+ "-" +:+ url);
            ClientError (Err e) (ns +:+ "-" +:+ url);
            SourceGet url;
            Callback err (payload_value p) (cbref hd)])
       (ticks st)).
Proof.
  intros Hget Hsrc.
  rewrite (cachingGet_store_error w ns ttl stale url e enc st Hget).
  unfold passthrough. rewrite Hsrc.
  unfold mbind, M_bind, bind, emit, log. simpl.
  by rewrite <- !app_assoc.
Qed.

(** A stored value that [decode] rejects is reported to [client.error]
    with the key and then handled as a miss: with the same underlying
    [get] and the same clock, the lookup ends as it does when the store
    has no value, with the same outcome, the same headers objects and
    the same calls, the report apart. *)
Theorem corrupt_entry_as_miss cg cg' sg ck ns ttl stale url enc x st :
  let key := ns +:+ "-" +:+ url in
  cg key = (None, Some enc) ->
  decode enc = Throw x ->
  cg' key = (None, None) ->
  let r := cachingGet (mkWorld cg sg ck) ns ttl stale url st in
  let r' := cachingGet (mkWorld cg' sg ck) ns ttl stale url st in
  fst r = fst r' /\ heap (snd r) = heap (snd r') /\
  ticks (snd r) = ticks (snd r') /\
  exists tail,
    trace (snd r') = trace st ++ ClientGet key :: tail /\
    trace (snd r)
      = trace st ++ ClientGet key :: ClientError (Exn x) key :: tail.
Proof.
  intros key Hget Hd Hmiss r r'. subst r r'.
  rewrite (cachingGet_corrupt (mkWorld cg sg ck) ns ttl stale url enc x st Hget Hd).
  rewrite (cachingGet_miss (mkWorld cg' sg ck) ns ttl stale url st Hmiss).
  fold key.
  change (fetch (mkWorld cg' sg ck)) with (fetch (mkWorld cg sg ck)).
  destruct (oblivious_fetch (mkWorld cg sg ck) key url ttl stale
              (heap st) (ticks st)) as (r & hp' & tk' & evs & Hrun).
  unfold log. simpl. rewrite !Hrun. simpl.
  repeat split; try done.
  exists evs. by rewrite <- !app_assoc.
Qed.

(** A fresh hit is served from the store alone: the caller gets the
    decoded entry, the clock is read once, and the underlying [get] is
    not called, nothing is written and no headers object is touched. *)
Theorem fresh_hit_served ns ttl stale url enc d h v t st :
  client_get w (ns +:+ "-" +:+ url) = (None, Some enc) ->
  decode enc = Ok d ->
  data_headers d = Some h ->
  hval_get "x-tl-expires" h = Some v ->
  truthy (Some v) = true ->
  Date_time v = Some t ->
  clock w (ticks st) < t ->
  cachingGet w ns ttl stale url st =
    (Ok tt,
     mkState (heap st)
       (trace st
        ++ [ClientGet (ns +:+ "-" +:+ url);
            Callback (data_err d) (data_buffer d) (CbDecoded h)])
       (S (ticks st))).
Proof.
  intros Hget Hd Hh Hv Ht Hdate Hlt.
  rewrite (cachingGet_hit w ns ttl stale url enc d st Hget Hd).
  unfold fresh_at, reads_clock. rewrite Hh, Hv, Ht, Hdate.
  apply Z.ltb_lt in Hlt. rewrite Hlt. simpl.
  unfold tick, log. simpl. by rewrite <- app_assoc.
Qed.


(** After a miss, an error of the underlying [get] that is neither a 404
    nor a 403 is not cached: the caller gets the error alone, without
    payload or headers, and nothing is written to the store. *)
Theorem miss_uncacheable_error ns ttl stale url e p hd st :
  client_get w (ns +:+ "-" +:+ url) = (None, None) ->
  source_get w url = (Some e, p, hd) ->
  errcode (Some e) = None ->
  cachingGet w ns ttl stale url st =
    (Ok tt,
     mkState (heap st)
       (trace st
        ++ [ClientGet (ns +:+ "-" +:+ url);
            SourceGet url;
            Callback (Some e) VUndefined CbUndefined])
       (ticks st)).
Proof.
  intros Hget Hsrc Hc.
  rewrite (cachingGet_miss w ns ttl stale url st Hget).
  unfold fetch. rewrite Hsrc. unfold uncacheable. rewrite Hc.
  unfold mbind, M_bind, bind, emit, log. simpl.
  by rewrite <- !app_assoc.
Qed.


(** What a miss stores is what the next hit serves.  When the underlying
    [get] answers without error, with a payload and metadata that fit
    the format, the lookup ends normally, and every value it writes is
    stored under the key and is such that a lookup that finds it in the
    store hands the caller, first of all, the payload (bytes for a
    string or a Buffer, the value for an object or an array) and the
    metadata as [setEx] has rewritten it, with the JSON flag for a
    structured payload and marked as a cache hit. *)
Theorem miss_then_hit ns ttl stale url p l h st :
  let key := ns +:+ "-" +:+ url in
  let x := toUTCString (clock w (ticks st) + ttl * 1000) in
  let meta := encoded_meta p (rewritten h x) in
  let text := JSON_stringify (JObj meta) in
  let cl := get_prop "content-length" h in
  heap st !! l = Some h ->
  client_get w key = (None, None) ->
  source_get w url = (None, p, Some l) ->
  is_Some (payload_bytes p) ->
  (length (Buffer_from text) <= offset)%nat ->
  JSON_parse text = Some (JObj meta) ->
  trim text = text ->
  (forall j, structured p = Some j ->
     JSON_parse (JSON_stringify j) = Some j /\ truthy cl = false) ->
  (forall b, structured p = None -> payload_bytes p = Some b ->
     truthy (get_prop "x-tl-json" h) = false /\
     (truthy cl = false \/
      loose_eq cl (Some (JNum (Z.of_nat (length b)))) = true)) ->
  let r := cachingGet w ns ttl stale url st in
  fst r = Ok tt /\
  exists ws,
    writes (trace (snd r)) = writes (trace st) ++ ws /\
    forall k n val, In (k, n, val) ws ->
      k = key /\
      exists out, val = EncBuffer out /\
        forall w' ttl' stale' st',
          client_get w' key = (None, Some out) ->
          exists rest,
            trace (snd (cachingGet w' ns ttl' stale' url st')) =
              trace st'
              ++ [ClientGet key;
                  Callback None (decoded p)
                    (CbDecoded
                       (HObj (set_prop "x-tl-cache" (JStr "hit") meta)))]
              ++ rest.
Proof.
  intros key x meta text cl Hl Hget Hsrc [b Hb] Hlen Hparse Htrim Hstruct Hbytes r.
  subst r. rewrite (cachingGet_miss w ns ttl stale url st Hget). fold key.
  unfold fetch. rewrite Hsrc. change (uncacheable None) with false. cbv iota.
  unfold or_empty.
  unfold mbind, M_bind, bind, emit, mret, M_ret, ret. simpl.
  set (st0 := mkState (heap st) _ (ticks st)).
  assert (Hdec : decode (Buffer_from text ++ padding (Buffer_from text) ++ b) =
            Ok (mkEntry None (decoded p)
                  (Some (HObj (set_prop "x-tl-cache" (JStr "hit") meta))))).
  { apply (decode_written p (rewritten h x) b); try done.
    - intros j Hj. rewrite rewritten_other by done. by apply Hstruct.
    - intros Hj. rewrite !rewritten_other by done. by apply Hbytes. }
  destruct (setEx_events w key None p l ttl stale st0 h Hl)
    as [[Hok Ht] | [(sec & pad & val & st1 & Hsec & Hpad & Hl1 & Henc & Hok & _ & Ht)
                   | (y & st1 & Hl1 & Henc & Hthrow & Ht)]].
  - destruct (setEx w key None p l ttl stale st0) as [[l'|y] st3]; simpl in *;
      [|discriminate].
    split; [done|]. exists []. rewrite Ht, !writes_app. simpl.
    split; [by rewrite !app_nil_r | done].
  - assert (Hval : val = EncBuffer
              (Buffer_from text ++ padding (Buffer_from text) ++ b)).
    { change (clock w (ticks st0)) with (clock w (ticks st)) in Hl1.
      fold x in Hl1. rewrite (encode_run p l _ st1 Hl1) in Henc.
      fold meta text in Henc. simpl in Henc.
      apply Nat.ltb_ge in Hlen. rewrite Hlen, Hb in Henc. congruence. }
    destruct (setEx w key None p l ttl stale st0) as [[l'|y] st3]; simpl in *;
      [|discriminate].
    split; [done|]. exists [(key, sec + pad, val)].
    rewrite Ht, !writes_app. simpl. split; [by rewrite !app_nil_r|].
    intros k n v [[= <- <- <-] | []]. split; [done|].
    eexists. split; [exact Hval|].
    intros w' ttl' stale' st' Hget'.
    destruct (hit_trace w' ns ttl' stale' url _ _ st' Hget' Hdec) as (rest & Htr).
    by exists rest.
  - exfalso.
    change (clock w (ticks st0)) with (clock w (ticks st)) in Hl1.
    fold x in Hl1. rewrite (encode_run p l _ st1 Hl1) in Henc.
    fold meta text in Henc. simpl in Henc.
    apply Nat.ltb_ge in Hlen. rewrite Hlen, Hb in Henc. discriminate.
Qed.

(** One lookup calls [client.get] first, and then the caller at most
    once, exactly once when it ends normally; it calls the underlying
    [get] at most once and writes to the store at most once. *)
Theorem lookup_calls ns ttl stale url st :
  allocated (snd (source_get w url)) st ->
  let r := cachingGet w ns ttl stale url st in
  exists evs,
    trace (snd r) = trace st ++ ClientGet (ns +:+ "-" +:+ url) :: evs /\
    (count is_callback evs <= 1)%nat /\
    (fst r = Ok tt -> count is_callback evs = 1%nat) /\
    (count is_source_get evs <= 1)%nat /\
    (count is_client_set evs <= 1)%nat.
Proof.
  intros Hhd r. subst r.
  destruct (source_get w url) as [[err p] hd] eqn:Hsrc. simpl in Hhd.
  destruct (lookup_shape w ns ttl stale url err p hd st Hsrc Hhd)
    as (evs & Htr & Hcases).
  exists evs. split; [done|]. unfold count.
  destruct Hcases as [(x & a & b & c & -> & Hok)
                     | [(a & b & c & tail & -> & Htail)
                       | (rep & tail & Hrep & -> & Htail)]].
  - simpl. repeat split; lia.
  - destruct Htail as [-> | (bg & -> & Hbg)]; [simpl; repeat split; lia|].
    destruct Hbg as [-> | [(e & ->) | (e & (sec & pad & val & _ & _ & _ & ->) & ->)]];
      simpl; repeat split; lia.
  - assert (Hrep0 : forall f, f = is_callback \/ f = is_source_get \/ f = is_client_set ->
              List.filter f rep = []).
    { intros f Hf. destruct Hrep as [-> | (x & ->)]; [done|].
      by destruct Hf as [-> | [-> | ->]]. }
    rewrite !List.filter_app, !Hrep0 by auto. simpl.
    destruct Htail as [[Hok (a & b & c & Ht)] | [(x & Hx) ->]].
    + destruct Ht as [-> | (e & (sec & pad & val & _ & _ & _ & ->) & ->)];
        simpl; repeat split; lia.
    + simpl. repeat split; try lia. rewrite Hx. discriminate.
Qed.

(** Every write of a lookup to the store is under the key of the lookup,
    holds the text of an error code or a Buffer, never [null], and, when
    [stale] is not negative, has a TTL of at least one second. *)
Theorem lookup_writes ns ttl stale url st :
  allocated (snd (source_get w url)) st ->
  0 <= stale ->
  let r := cachingGet w ns ttl stale url st in
  exists evs,
    trace (snd r) = trace st ++ evs /\
    forall k n val, In (ClientSet k n val) evs ->
      k = ns +:+ "-" +:+ url /\ 0 < n /\
      ((exists c, (c = 404 \/ c = 403) /\ val = EncString (Number_toString c)) \/
       exists out, val = EncBuffer out).
Proof.
  intros Hhd Hstale r. subst r.
  destruct (source_get w url) as [[err p] hd] eqn:Hsrc. simpl in Hhd.
  destruct (lookup_shape w ns ttl stale url err p hd st Hsrc Hhd)
    as (evs & Htr & Hcases).
  eexists. split; [exact Htr|].
  assert (Hwrite : forall e k n val,
            store_write (ns +:+ "-" +:+ url) stale err e ->
            e = ClientSet k n val ->
            k = ns +:+ "-" +:+ url /\ 0 < n /\
            ((exists c, (c = 404 \/ c = 403) /\ val = EncString (Number_toString c)) \/
             exists out, val = EncBuffer out)).
  { intros e k n val (sec & pad & v & Hsec & Hpad & Hv & ->) [= <- <- <-].
    split; [done|]. split; [destruct Hpad as [-> | ->]; lia|].
    unfold stored in Hv. destruct (errcode err) as [c|] eqn:Hc; [|by right].
    left. exists c. split; [|done].
    unfold errcode in Hc. destruct err as [e|]; [|discriminate].
    destruct (statusCode e) as [[|q|q]|]; try discriminate.
    repeat (destruct q as [q|q|]; try discriminate);
      injection Hc as <-; by auto. }
  intros k n val [[=] | Hin].
  destruct Hcases as [(x & a & b & c & -> & Hok)
                     | [(a & b & c & tail & -> & Htail)
                       | (rep & tail & Hrep & -> & Htail)]].
  - simpl in Hin. by destruct Hin as [[=] | [[=] | [[=] | []]]].
  - destruct Hin as [[=] | Hin].
    destruct Htail as [-> | (bg & -> & Hbg)]; [done|].
    destruct Hin as [[=] | Hin].
    destruct Hbg as [-> | [(e & ->) | (e & He & ->)]].
    + done.
    + by destruct Hin as [[=] | []].
    + destruct Hin as [-> | []]. by apply (Hwrite _ k n val He).
  - apply in_app_or in Hin as [Hin | [[=] | Hin]].
    + destruct Hrep as [-> | (x & ->)]; [done|]. by destruct Hin as [[=] | []].
    + destruct Htail as [[Hok (a & b & c & Ht)] | [_ ->]]; [|done].
      destruct Ht as [-> | (e & He & ->)].
      * by destruct Hin as [[=] | []].
      * destruct Hin as [-> | [[=] | []]]. by apply (Hwrite _ k n val He).
Qed.

End LookupProperties.

(** ** Setting up a cache *)



(** ** Failures of [encode] *)

Section Failures.
Context `{Runtime}.
Variable w : world.

(** [encode] throws for a result without error only, and then in two
    cases: the metadata it serializes (with the JSON flag for a
    structured payload) takes more than 1024 bytes, which is checked
    first, or the payload is [undefined], [null] or the empty string,
    which have no bytes to lay out. *)
Theorem encode_failure_iff err p l h st x :
  heap st !! l = Some h ->
  let hd := Buffer_from (JSON_stringify (JObj (encoded_meta p h))) in
  fst (encode err p (Some l) st) = Throw x <->
  err = None /\
  ((x = HeadersExceed /\ (offset < length hd)%nat) \/
   (x = TypeError /\ (length hd <= offset)%nat /\
    (p = PUndefined \/ p = PNull \/ p = PString ""))).
Proof.
  intros Hl hd. destruct err as [e|].
  - split; [|by intros [[=] _]].
    unfold encode. destruct (errcode (Some e)); discriminate.
  - rewrite (encode_run p l h st Hl). fold hd. simpl.
    assert (Hnone : payload_bytes p = None <->
              p = PUndefined \/ p = PNull \/ p = PString "").
    { destruct p as [| |s|b|o|a]; simpl; split; try done; try by auto;
        try (by intros [[=] | [[=] | [=]]]).
      - destruct (String.eqb_spec s ""); [subst; by auto | discriminate].
      - intros [[=] | [[=] | [= ->]]]. done. }
    destruct (Nat.ltb_spec offset (length hd)).
    + split.
      * intros [= <-]. split; [done|]. left. by split.
      * intros [_ [[-> _] | (_ & Hle & _)]]; [done | lia].
    + destruct (payload_bytes p) as [b|] eqn:Hb.
      * split; [discriminate|].
        intros [_ [[_ Hlt] | (_ & _ & Hp)]]; [lia|].
        apply Hnone in Hp. discriminate.
      * split.
        -- intros [= <-]. split; [done|]. right. split; [done|]. split; [done|].
           by apply Hnone.
        -- intros [_ [[_ Hlt] | (-> & _ & _)]]; [lia | done].
Qed.


End Failures.

(** ** The further properties on concrete inputs *)

Lemma encode_shape_witness :
  heap (single []) !! 0%nat = Some [] /\
  exists out,
    fst (encode None (PString "hello") (Some 0%nat) (single []))
      = Ok (EncBuffer out) /\
    length out = (offset + 5)%nat /\
    drop offset out = Buffer_from "hello".
Proof.
  split; [reflexivity|].
  assert (Hr : exists out,
            fst (encode None (PString "hello") (Some 0%nat) (single []))
              = Ok (EncBuffer out))
    by (vm_compute; eexists; reflexivity).
  destruct Hr as [out Hr]. exists out. split; [exact Hr|].
  destruct (encode_shape None (PString "hello") 0%nat [] (single [])
              (EncBuffer out) eq_refl Hr)
    as [(Hn & _) | [(c & Hc & _) | (b & out' & _ & Hb & Hv & Hlen & Hdrop)]];
    [discriminate | discriminate |].
  injection Hv as <-. simpl in Hb. injection Hb as <-. by split.
Defined.

Lemma encode_frame_witness :
  heap (snd (encode None (PObject [("id", JStr "foo")]) (Some 0%nat) two_objects))
    !! 1%nat = Some upstream_headers.
Proof.
  destruct (encode_frame None (PObject [("id", JStr "foo")]) (Some 0%nat)
              two_objects) as (_ & _ & Hframe).
  rewrite (Hframe 1%nat); [reflexivity | discriminate | by eexists].
Defined.

Lemma decode_entry_shape_witness :
  decode expired_entry = Ok stale_entry /\
  ((exists c, (c = 404 \/ c = 403) /\
              expired_entry = Buffer_from (Number_toString c) /\
              stale_entry = mkEntry (Some (mkError (Some c) true "")) VUndefined None) \/
   (expired_entry <> Buffer_from "404" /\ expired_entry <> Buffer_from "403" /\
    data_err stale_entry = None /\ data_buffer stale_entry <> VUndefined /\
    exists h, data_headers stale_entry = Some h /\
              match h with
              | HPrim _ => True
              | _ => hval_get "x-tl-cache" h = Some (JStr "hit")
              end)).
Proof.
  assert (Hd : decode expired_entry = Ok stale_entry) by (vm_compute; reflexivity).
  split; [exact Hd|]. exact (decode_entry_shape expired_entry stale_entry Hd).
Defined.

Lemma content_length_bytes_witness :
  (length (Buffer_from (js "{'content-length':5}")) <= offset)%nat /\
  JSON_parse (trim (Buffer_toString (Buffer_from (js "{'content-length':5}"))))
    = Some (JObj [("content-length", JNum 5)]) /\
  truthy (get_prop "x-tl-json" [("content-length", JNum 5)]) = false /\
  decode wrong_length = Throw ContentLengthMismatch.
Proof.
  assert (Hlen : (length (Buffer_from (js "{'content-length':5}")) <= offset)%nat)
    by (vm_compute; lia).
  assert (Hparse :
            JSON_parse (trim (Buffer_toString (Buffer_from (js "{'content-length':5}"))))
              = Some (JObj [("content-length", JNum 5)]))
    by (vm_compute; reflexivity).
  split; [exact Hlen|]. split; [exact Hparse|]. split; [reflexivity|].
  apply (proj2 (content_length_bytes (Buffer_from (js "{'content-length':5}"))
                  (Buffer_from "hello!") [("content-length", JNum 5)]
                  Hlen Hparse eq_refl)).
  split; vm_compute; reflexivity.
Defined.

Lemma encode_failure_iff_witness :
  heap (single []) !! 0%nat = Some [] /\
  fst (encode None PNull (Some 0%nat) (single [])) = Throw TypeError.
Proof.
  split; [reflexivity|].
  apply (proj2 (encode_failure_iff None PNull 0%nat [] (single []) TypeError
                  eq_refl)).
  split; [reflexivity|]. right. split; [reflexivity|].
  split; [vm_compute; lia | by auto].
Defined.

Lemma isFresh_monotone_witness :
  clock miss_json (ticks empty_state) <= clock miss_json (ticks (mkState ∅ [] 5)) /\
  fst (isFresh miss_json fresh_entry (mkState ∅ [] 5)) = Ok true /\
  fst (isFresh miss_json fresh_entry empty_state) = Ok true.
Proof.
  assert (Hle : clock miss_json (ticks empty_state)
                <= clock miss_json (ticks (mkState ∅ [] 5)))
    by (vm_compute; discriminate).
  assert (Hf : fst (isFresh miss_json fresh_entry (mkState ∅ [] 5)) = Ok true)
    by (vm_compute; reflexivity).
  split; [exact Hle|]. split; [exact Hf|].
  exact (isFresh_monotone miss_json fresh_entry (mkState ∅ [] 5) empty_state Hle Hf).
Defined.

Lemma setEx_keeps_fields_witness :
  heap (single typed_headers) !! 0%nat = Some typed_headers /\
  exists h',
    heap (snd (setEx miss_json "TL4-/x" None (PString "hello") 0%nat 300 300
                 (single typed_headers))) !! 0%nat = Some h' /\
    get_prop "content-type" h' = Some (JStr "application/json").
Proof.
  split; [reflexivity|].
  destruct (setEx_keeps_fields miss_json "TL4-/x" None (PString "hello") 0%nat
              300 300 (single typed_headers) typed_headers eq_refl)
    as [(h' & Hh & Hkeep) _].
  exists h'. split; [exact Hh|]. by rewrite (Hkeep "content-type").
Defined.

Lemma store_error_passthrough_witness :
  client_get store_down "TL4-/x" = (Some store_error, None) /\
  source_get store_down "/x" = (None, PString "hello", Some 0%nat) /\
  cachingGet store_down "TL4" 300 300 "/x" (single []) =
    (Ok tt,
     mkState (heap (single []))
       [ClientGet "TL4-/x"; ClientError (Err store_error) "TL4-/x";
        SourceGet "/x";
        Callback None (VJson (JStr "hello")) (CbRef 0%nat)]
       0).
Proof.
  split; [reflexivity|]. split; [reflexivity|].
  exact (store_error_passthrough store_down "TL4" 300 300 "/x" store_error None
           None (PString "hello") (Some 0%nat) (single []) eq_refl eq_refl).
Defined.

Lemma corrupt_entry_as_miss_witness :
  decode (Buffer_from "garbage") = Throw InvalidCacheValue /\
  fst (cachingGet (mkWorld (fun _ => (None, Some (Buffer_from "garbage")))
                     (source_get miss_json) later)
         "TL4" 300 300 "/x" (single upstream_headers))
  = fst (cachingGet (mkWorld (fun _ => (None, None)) (source_get miss_json) later)
           "TL4" 300 300 "/x" (single upstream_headers)).
Proof.
  assert (Hd : decode (Buffer_from "garbage") = Throw InvalidCacheValue)
    by (vm_compute; reflexivity).
  split; [exact Hd|].
  destruct (corrupt_entry_as_miss
              (fun _ => (None, Some (Buffer_from "garbage")))
              (fun _ => (None, None)) (source_get miss_json) later
              "TL4" 300 300 "/x" (Buffer_from "garbage") InvalidCacheValue
              (single upstream_headers) eq_refl Hd eq_refl) as [Hfst _].
  exact Hfst.
Defined.

Lemma fresh_hit_served_witness :
  decode unexpired_entry = Ok fresh_entry /\
  Date_time (JStr "Wed, 02 Nov 2016 22:33:30 GMT") = Some 1478126010000 /\
  clock hit_fresh (ticks empty_state) < 1478126010000 /\
  cachingGet hit_fresh "TL4" 300 300 "/x" empty_state =
    (Ok tt,
     mkState ∅
       [ClientGet "TL4-/x";
        Callback None (VBuffer (Buffer_from "hello"))
          (CbDecoded
             (HObj [("x-tl-expires", JStr "Wed, 02 Nov 2016 22:33:30 GMT");
                    ("x-tl-cache", JStr "hit")]))]
       1).
Proof.
  assert (Hd : decode unexpired_entry = Ok fresh_entry) by (vm_compute; reflexivity).
  assert (Ht : Date_time (JStr "Wed, 02 Nov 2016 22:33:30 GMT") = Some 1478126010000)
    by (vm_compute; reflexivity).
  assert (Hlt : clock hit_fresh (ticks empty_state) < 1478126010000)
    by (vm_compute; reflexivity).
  split; [exact Hd|]. split; [exact Ht|]. split; [exact Hlt|].
  exact (fresh_hit_served hit_fresh "TL4" 300 300 "/x" unexpired_entry fresh_entry
           (HObj [("x-tl-expires", JStr "Wed, 02 Nov 2016 22:33:30 GMT");
                  ("x-tl-cache", JStr "hit")])
           (JStr "Wed, 02 Nov 2016 22:33:30 GMT") 1478126010000 empty_state
           eq_refl Hd eq_refl eq_refl eq_refl Ht Hlt).
Defined.


Lemma miss_uncacheable_error_witness :
  errcode (Some server_error) = None /\
  cachingGet miss_500 "TL4" 300 300 "/x" empty_state =
    (Ok tt,
     mkState ∅
       [ClientGet "TL4-/x"; SourceGet "/x";
        Callback (Some server_error) VUndefined CbUndefined]
       0).
Proof.
  split; [reflexivity|].
  exact (miss_uncacheable_error miss_500 "TL4" 300 300 "/x" server_error
           PUndefined None empty_state eq_refl eq_refl eq_refl).
Defined.


Lemma miss_then_hit_witness :
  heap (single upstream_headers) !! 0%nat = Some upstream_headers /\
  fst (cachingGet miss_json "TL4" 300 300 "/x" (single upstream_headers)) = Ok tt.
Proof.
  split; [reflexivity|].
  assert (Hlen :
    (length (Buffer_from (JSON_stringify (JObj
       (encoded_meta (PObject [("id", JStr "foo")])
          (rewritten upstream_headers
             (toUTCString (clock miss_json (ticks (single upstream_headers))
                           + 300 * 1000)))))))
     <= offset)%nat) by (vm_compute; lia).
  assert (Hparse :
    JSON_parse (JSON_stringify (JObj
       (encoded_meta (PObject [("id", JStr "foo")])
          (rewritten upstream_headers
             (toUTCString (clock miss_json (ticks (single upstream_headers))
                           + 300 * 1000))))))
    = Some (JObj
       (encoded_meta (PObject [("id", JStr "foo")])
          (rewritten upstream_headers
             (toUTCString (clock miss_json (ticks (single upstream_headers))
                           + 300 * 1000))))))
    by (vm_compute; reflexivity).
  assert (Htrim :
    trim (JSON_stringify (JObj
       (encoded_meta (PObject [("id", JStr "foo")])
          (rewritten upstream_headers
             (toUTCString (clock miss_json (ticks (single upstream_headers))
                           + 300 * 1000))))))
    = JSON_stringify (JObj
       (encoded_meta (PObject [("id", JStr "foo")])
          (rewritten upstream_headers
             (toUTCString (clock miss_json (ticks (single upstream_headers))
                           + 300 * 1000))))))
    by (vm_compute; reflexivity).
  assert (Hstruct : forall j,
    structured (PObject [("id", JStr "foo")]) = Some j ->
    JSON_parse (JSON_stringify j) = Some j /\
    truthy (get_prop "content-length" upstream_headers) = false).
  { intros j Hj. injection Hj as <-. split; vm_compute; reflexivity. }
  assert (Hbytes : forall b,
    structured (PObject [("id", JStr "foo")]) = None ->
    payload_bytes (PObject [("id", JStr "foo")]) = Some b ->
    truthy (get_prop "x-tl-json" upstream_headers) = false /\
    (truthy (get_prop "content-length" upstream_headers) = false \/
     loose_eq (get_prop "content-length" upstream_headers)
       (Some (JNum (Z.of_nat (length b)))) = true)).
  { intros b Hj. discriminate Hj. }
  destruct (miss_then_hit miss_json "TL4" 300 300 "/x"
              (PObject [("id", JStr "foo")]) 0%nat upstream_headers
              (single upstream_headers) eq_refl eq_refl eq_refl
              (ex_intro _ _ eq_refl) Hlen Hparse Htrim Hstruct Hbytes)
    as [Hok _].
  exact Hok.
Defined.


Lemma lookup_calls_witness :
  allocated (snd (source_get miss_json "/x")) (single upstream_headers) /\
  exists evs,
    trace (snd (cachingGet miss_json "TL4" 300 300 "/x" (single upstream_headers)))
      = ClientGet "TL4-/x" :: evs /\
    (count is_callback evs <= 1)%nat /\
    (fst (cachingGet miss_json "TL4" 300 300 "/x" (single upstream_headers)) = Ok tt ->
     count is_callback evs = 1%nat) /\
    (count is_source_get evs <= 1)%nat /\
    (count is_client_set evs <= 1)%nat.
Proof.
  assert (Hhd : allocated (snd (source_get miss_json "/x")) (single upstream_headers))
    by (by exists upstream_headers).
  split; [exact Hhd|].
  exact (lookup_calls miss_json "TL4" 300 300 "/x" (single upstream_headers) Hhd).
Defined.

Lemma lookup_writes_witness :
  allocated (snd (source_get miss_json "/x")) (single upstream_headers) /\
  0 <= 300 /\
  exists evs,
    trace (snd (cachingGet miss_json "TL4" 300 300 "/x" (single upstream_headers)))
      = evs /\
    forall k n val, In (ClientSet k n val) evs ->
      k = "TL4-/x" /\ 0 < n /\
      ((exists c, (c = 404 \/ c = 403) /\ val = EncString (Number_toString c)) \/
       exists out, val = EncBuffer out).
Proof.
  assert (Hhd : allocated (snd (source_get miss_json "/x")) (single upstream_headers))
    by (by exists upstream_headers).
  assert (Hstale : 0 <= 300) by lia.
  split; [exact Hhd|]. split; [exact Hstale|].
  exact (lookup_writes miss_json "TL4" 300 300 "/x" (single upstream_headers)
           Hhd Hstale).
Defined.
